(** * Lap logger: a shallow embedding of [qr_code_scanner.py]

    The program polls a camera, decodes the QR codes of every captured frame
    and appends one line per decoded payload to a log file.  The three
    functions of the source, [capture_frame], [scan_qr_code] and [log_laps],
    are embedded below in a state-and-exception monad over a [world] that
    holds the log file, the capture handles and the trace of external
    calls.  The libraries the program calls (OpenCV, pyzbar, the codec, the
    clock, the file system) are not code of the repository: the image type
    and the two decoders are the fields of a class [Libraries], and what
    the remaining calls answer in one pass of the loop is given by a record
    [iteration]. *)

From Stdlib Require Import String Ascii List Sorted Arith Bool Lia.
From Stdlib Require Import Decimal DecimalString DecimalNat.
Import ListNotations.
Open Scope string_scope.

(** ** Python values *)

(** Python [bytes]; the strings of Rocq are sequences of 8-bit characters. *)
Definition bytes := string.

(** The newline character written by ["\n"]. *)
Definition LF : ascii := "010"%char.
Definition newline : string := String LF EmptyString.

(** The two classes of exception the handlers of [log_laps] tell apart;
    [Exception msg] stands for every instance of Python's [Exception] and
    [msg] for its [str]. *)
Inductive exn : Type :=
| KeyboardInterrupt
| Exception (msg : string).

(** A call either returns a value or raises. *)
Inductive result (A : Type) : Type :=
| Return (a : A)
| Raise (e : exn).
Arguments Return {A} a.
Arguments Raise {A} e.

(** An object of pyzbar's result list; only [obj.data] is read. *)
Record Decoded : Type := mkDecoded { data : bytes }.

(** What [time.gmtime()] returns, at second precision. *)
Record struct_time : Type := mk_time {
  tm_year : nat;
  tm_mon : nat;
  tm_mday : nat;
  tm_hour : nat;
  tm_min : nat;
  tm_sec : nat
}.

(** ** [time.strftime] *)

Definition decimal (n : nat) : string :=
  NilEmpty.string_of_uint (Nat.to_uint n).

(** A two-column field, padded with a zero. *)
Definition two_digits (n : nat) : string :=
  if Nat.ltb n 10 then "0" ++ decimal n else decimal n.

(** The conversions used by the program's format; [%Y] is the year in
    decimal, which has four columns from 1000 to 9999. *)
Definition directive (c : ascii) (t : struct_time) : string :=
  if Ascii.eqb c "Y" then decimal (tm_year t)
  else if Ascii.eqb c "m" then two_digits (tm_mon t)
  else if Ascii.eqb c "d" then two_digits (tm_mday t)
  else if Ascii.eqb c "H" then two_digits (tm_hour t)
  else if Ascii.eqb c "M" then two_digits (tm_min t)
  else if Ascii.eqb c "S" then two_digits (tm_sec t)
  else String "%" (String c EmptyString).

Fixpoint strftime (format : string) (t : struct_time) : string :=
  match format with
  | EmptyString => EmptyString
  | String c rest =>
      if Ascii.eqb c "%" then
        match rest with
        | EmptyString => String c EmptyString
        | String d rest' => directive d t ++ strftime rest' t
        end
      else String c (strftime rest t)
  end.

(** The order of the wall clock: year, month, day, hour, minute, second. *)
Fixpoint lex_le (a b : list nat) : Prop :=
  match a, b with
  | x :: a', y :: b' => x < y \/ (x = y /\ lex_le a' b')
  | _, _ => True
  end.

Definition time_fields (t : struct_time) : list nat :=
  [tm_year t; tm_mon t; tm_mday t; tm_hour t; tm_min t; tm_sec t].

Definition time_le (t1 t2 : struct_time) : Prop :=
  lex_le (time_fields t1) (time_fields t2).

(** A calendar date and time of day with a four-digit year. *)
Definition valid_time (t : struct_time) : Prop :=
  1000 <= tm_year t < 10 * 1000 /\ 1 <= tm_mon t <= 12 /\
  1 <= tm_mday t <= 31 /\ tm_hour t <= 23 /\ tm_min t <= 59 /\
  tm_sec t <= 61.

(** The shape [YYYY-MM-DD HH:MM:SS], digit by digit. *)
Definition digit (n : nat) : ascii := ascii_of_nat (48 + n mod 10).

Definition pad2 (n : nat) : string :=
  String (digit (n / 10)) (String (digit n) EmptyString).

Definition pad4 (n : nat) : string :=
  String (digit (n / 1000)) (String (digit (n / 100)) (pad2 n)).

Definition YYYY_MM_DD_HH_MM_SS (t : struct_time) : string :=
  pad4 (tm_year t) ++ "-" ++ pad2 (tm_mon t) ++ "-" ++ pad2 (tm_mday t)
    ++ " " ++ pad2 (tm_hour t) ++ ":" ++ pad2 (tm_min t) ++ ":"
    ++ pad2 (tm_sec t).

Fixpoint string_forallb (p : ascii -> bool) (s : string) : bool :=
  match s with
  | EmptyString => true
  | String c s' => p c && string_forallb p s'
  end.

Definition is_digit (c : ascii) : bool :=
  Nat.leb 48 (nat_of_ascii c) && Nat.leb (nat_of_ascii c) 57.

(** The characters of a timestamp: digits, [-], [:] and the space. *)
Definition stamp_char (c : ascii) : bool :=
  is_digit c || Ascii.eqb c "-" || Ascii.eqb c ":" || Ascii.eqb c " ".

Definition no_newline (s : string) : bool :=
  string_forallb (fun c => negb (Ascii.eqb c LF)) s.

Definition no_comma (s : string) : bool :=
  string_forallb (fun c => negb (Ascii.eqb c ",")) s.

(** The decimal number [d] with the digit [k] in front. *)
Definition cons_digit (k : nat) (d : uint) : uint :=
  match k with
  | 0 => D0 d | 1 => D1 d | 2 => D2 d | 3 => D3 d | 4 => D4 d
  | 5 => D5 d | 6 => D6 d | 7 => D7 d | 8 => D8 d | _ => D9 d
  end.

Fixpoint all_below (n : nat) (p : nat -> bool) : bool :=
  match n with
  | 0 => true
  | S k => p k && all_below k p
  end.

(** ** The world *)

(** The external calls of the program, in the order they happen. *)
Inductive event : Type :=
| ev_VideoCapture (url : string) (cap : nat)
| ev_read (cap : nat) (ret : bool)
| ev_release (cap : nat)
| ev_write (text : string)
| ev_print (text : string)
| ev_sleep (secs : nat).

Record world : Type := mk_world {
  log_file : string;      (* content of the file at [qr_log_file] *)
  caps_open : list nat;   (* capture handles opened and not released *)
  caps_next : nat;        (* the next handle [cv2.VideoCapture] hands out *)
  trace : list event
}.

Definition emit (e : event) (w : world) : world :=
  mk_world (log_file w) (caps_open w) (caps_next w) (trace w ++ [e]).

(** Handles are handed out in increasing order. *)
Definition caps_wf (w : world) : Prop :=
  Forall (fun cap => cap < caps_next w) (caps_open w).

(** ** The monad of the embedding: state and exceptions *)

Definition M (A : Type) : Type := world -> result A * world.

Definition ret {A : Type} (a : A) : M A := fun w => (Return a, w).

Definition raise {A : Type} (e : exn) : M A := fun w => (Raise e, w).

Definition bind {A B : Type} (m : M A) (k : A -> M B) : M B :=
  fun w =>
    match m w with
    | (Return a, w') => k a w'
    | (Raise e, w') => (Raise e, w')
    end.

Definition lift {A : Type} (r : result A) : M A := fun w => (r, w).

(** [try: body except e: handler e] *)
Definition try_except {A : Type} (body : M A) (handler : exn -> M A) : M A :=
  fun w =>
    match body w with
    | (Return a, w') => (Return a, w')
    | (Raise e, w') => handler e w'
    end.

Notation "x <- m ;; k" := (bind m (fun x => k))
  (at level 61, m at next level, right associativity).
Notation "m ;;; k" := (bind m (fun _ => k))
  (at level 61, right associativity).

(** ** External calls *)

(** [cv2.VideoCapture(url)]: a fresh handle, open from now on. *)
Definition VideoCapture (url : string) : M nat :=
  fun w =>
    let cap := caps_next w in
    (Return cap,
     mk_world (log_file w) (cap :: caps_open w) (S cap)
              (trace w ++ [ev_VideoCapture url cap])).

Fixpoint remove_first (cap : nat) (l : list nat) : list nat :=
  match l with
  | [] => []
  | c :: l' => if Nat.eqb c cap then l' else c :: remove_first cap l'
  end.

(** [cap.release()] *)
Definition cap_release (cap : nat) : M unit :=
  fun w =>
    (Return tt,
     mk_world (log_file w) (remove_first cap (caps_open w)) (caps_next w)
              (trace w ++ [ev_release cap])).

(** [open(qr_log_file, mode)]: only mode ["w"] truncates.  The world holds
    the one file the program opens, whatever its path. *)
Definition open_file (path mode : string) : M unit :=
  fun w =>
    if String.eqb mode "w"
    then (Return tt, mk_world EmptyString (caps_open w) (caps_next w) (trace w))
    else (Return tt, w).

(** [f.write(text)], which appends [text] or raises [answer]. *)
Definition f_write (answer : option exn) (text : string) : M unit :=
  fun w =>
    match answer with
    | None =>
        (Return tt,
         mk_world (log_file w ++ text) (caps_open w) (caps_next w)
                  (trace w ++ [ev_write text]))
    | Some e => (Raise e, w)
    end.

(** [print(text)] *)
Definition print (text : string) : M unit :=
  fun w => (Return tt, emit (ev_print text) w).

(** [time.sleep(secs)], which lasts [secs] or is cut short by [answer]. *)
Definition time_sleep (answer : option exn) (secs : nat) : M unit :=
  fun w =>
    match answer with
    | None => (Return tt, emit (ev_sleep secs) w)
    | Some e => (Raise e, w)
    end.

(** ** The log as text *)

(** The line written for one payload. *)
Definition log_line (current_time qr_code : string) : string :=
  current_time ++ ", " ++ qr_code ++ newline.

Fixpoint join (l : list string) : string :=
  match l with
  | [] => EmptyString
  | x :: l' => x ++ join l'
  end.

(** The text of a sequence of (timestamp, payload) entries. *)
Definition render (es : list (string * string)) : string :=
  join (map (fun e => log_line (fst e) (snd e)) es).

(** ** The program *)

(** The libraries behind the program: the image type of OpenCV (with
    [None]), pyzbar's [decode] and [bytes.decode('utf-8')]. *)
Class Libraries : Type := {
  frame : Type;
  decode : frame -> result (list Decoded);
  decode_utf8 : bytes -> result string
}.

Section Program.

Context {L : Libraries}.

(** What the outside answers during one pass of the loop: [cap.read()],
    [time.gmtime()], each [f.write] in turn (a missing answer is a
    success) and [time.sleep]. *)
Record iteration : Type := mk_iteration {
  on_read : result (bool * frame);
  on_gmtime : struct_time;
  on_write : list (option exn);
  on_sleep : option exn
}.

(** [cap.read()] *)
Definition cap_read (answer : result (bool * frame)) (cap : nat)
  : M (bool * frame) :=
  fun w =>
    match answer with
    | Return (r, fr) => (Return (r, fr), emit (ev_read cap r) w)
    | Raise e => (Raise e, w)
    end.

Definition capture_frame (answer : result (bool * frame)) (url : string)
  : M frame :=
  cap <- VideoCapture url ;;
  rf <- cap_read answer cap ;;
  cap_release cap ;;;
  if negb (fst rf)
  then raise (Exception "Failed to capture frame from ESP32-CAM")
  else ret (snd rf).

(** The loop of [scan_qr_code] over [decoded_objects]. *)
Fixpoint scan_objects (decoded_objects : list Decoded) (qr_data : list string)
  : result (list string) :=
  match decoded_objects with
  | [] => Return qr_data
  | obj :: rest =>
      match decode_utf8 (data obj) with
      | Return s => scan_objects rest (qr_data ++ [s])
      | Raise e => Raise e
      end
  end.

Definition scan_qr_code (fr : frame) : result (list string) :=
  match decode fr with
  | Return decoded_objects => scan_objects decoded_objects []
  | Raise e => Raise e
  end.

(** [for qr_code in qr_codes: f.write(...); print(...)] *)
Fixpoint write_laps (current_time : string) (qr_codes : list string)
  (answers : list (option exn)) : M unit :=
  match qr_codes with
  | [] => ret tt
  | qr_code :: rest =>
      f_write (hd None answers) (log_line current_time qr_code) ;;;
      print ("Lap logged: " ++ qr_code ++ " at " ++ current_time) ;;;
      write_laps current_time rest (tl answers)
  end.

(** Python's truth value of a list. *)
Definition truthy {A : Type} (l : list A) : bool :=
  match l with [] => false | _ :: _ => true end.

(** The statements of the [try] block before [time.sleep(1)]. *)
Definition capture_scan_log (it : iteration) (url : string) : M unit :=
  fr <- capture_frame (on_read it) url ;;
  qr_codes <- lift (scan_qr_code fr) ;;
  if truthy qr_codes
  then
    let current_time := strftime "%Y-%m-%d %H:%M:%S" (on_gmtime it) in
    write_laps current_time qr_codes (on_write it)
  else ret tt.

Definition try_block (it : iteration) (url : string) : M unit :=
  capture_scan_log it url ;;;
  time_sleep (on_sleep it) 1.

Inductive control : Type := Continue | Break.

(** One pass of [while True]: the [try] statement with its two handlers. *)
Definition loop_body (it : iteration) (url : string) : M control :=
  try_except
    (try_block it url ;;; ret Continue)
    (fun e =>
       match e with
       | KeyboardInterrupt => print "Logging stopped." ;;; ret Break
       | Exception msg => print ("Error: " ++ msg) ;;; ret Continue
       end).

(** How a finite run ends: the loop was left by [break], or it is still
    polling when the answers run out. *)
Inductive status : Type := Stopped | Polling.

Fixpoint while_True (its : list iteration) (url : string) : M status :=
  match its with
  | [] => ret Polling
  | it :: rest =>
      c <- loop_body it url ;;
      match c with
      | Continue => while_True rest url
      | Break => ret Stopped
      end
  end.

Definition log_laps (its : list iteration) (qr_log_file url : string)
  : M status :=
  open_file qr_log_file "a" ;;;
  while_True its url.

(** ** What a pass of the loop does, read off the answers

    The functions below do not run the program; they describe a pass by
    its answers, and the theorems relate them to [loop_body]. *)

Definition capture_failed : exn :=
  Exception "Failed to capture frame from ESP32-CAM".

(** The outcome of [capture_frame]. *)
Definition captured (it : iteration) : result frame :=
  match on_read it with
  | Return (true, fr) => Return fr
  | Return (false, _) => Raise capture_failed
  | Raise e => Raise e
  end.

(** The payloads [scan_qr_code] returns for the captured frame. *)
Definition payloads (it : iteration) : list string :=
  match captured it with
  | Return fr =>
      match scan_qr_code fr with
      | Return qr_codes => qr_codes
      | Raise _ => []
      end
  | Raise _ => []
  end.

(** The payloads written before the first write that raises. *)
Fixpoint written (qr_codes : list string) (answers : list (option exn))
  : list string :=
  match qr_codes with
  | [] => []
  | qr_code :: rest =>
      match hd None answers with
      | None => qr_code :: written rest (tl answers)
      | Some _ => []
      end
  end.

(** The exception of the first write that raises. *)
Fixpoint write_fault (qr_codes : list string) (answers : list (option exn))
  : option exn :=
  match qr_codes with
  | [] => None
  | _ :: rest =>
      match hd None answers with
      | None => write_fault rest (tl answers)
      | Some e => Some e
      end
  end.

Definition timestamp (it : iteration) : string :=
  strftime "%Y-%m-%d %H:%M:%S" (on_gmtime it).

Definition logged (it : iteration) : list string :=
  written (payloads it) (on_write it).

(** The log entries of a pass, as (timestamp, payload) pairs. *)
Definition entries (it : iteration) : list (string * string) :=
  map (pair (timestamp it)) (logged it).

(** What the [try] block raises before it reaches [time.sleep(1)]. *)
Definition raised_before_sleep (it : iteration) : option exn :=
  match captured it with
  | Raise e => Some e
  | Return fr =>
      match scan_qr_code fr with
      | Raise e => Some e
      | Return qr_codes => write_fault qr_codes (on_write it)
      end
  end.

(** What the [try] block raises. *)
Definition raised (it : iteration) : option exn :=
  match raised_before_sleep it with
  | Some e => Some e
  | None => on_sleep it
  end.

Definition next_step (it : iteration) : control :=
  match raised it with
  | Some KeyboardInterrupt => Break
  | _ => Continue
  end.

Definition capture_events (url : string) (cap : nat) (it : iteration)
  : list event :=
  ev_VideoCapture url cap ::
  match on_read it with
  | Return (r, _) => [ev_read cap r; ev_release cap]
  | Raise _ => []
  end.

Definition lap_events (current_time : string) (qr_codes : list string)
  : list event :=
  flat_map
    (fun qr_code =>
       [ev_write (log_line current_time qr_code);
        ev_print ("Lap logged: " ++ qr_code ++ " at " ++ current_time)])
    qr_codes.

Definition sleep_events (it : iteration) : list event :=
  match raised_before_sleep it, on_sleep it with
  | None, None => [ev_sleep 1]
  | _, _ => []
  end.

Definition handler_events (it : iteration) : list event :=
  match raised it with
  | None => []
  | Some KeyboardInterrupt => [ev_print "Logging stopped."]
  | Some (Exception msg) => [ev_print ("Error: " ++ msg)]
  end.

Definition pass_events (url : string) (cap : nat) (it : iteration)
  : list event :=
  capture_events url cap it ++ lap_events (timestamp it) (logged it)
    ++ sleep_events it ++ handler_events it.

(** The handles left open by a pass: [capture_frame] has no [finally], so
    a [cap.read()] that raises skips [cap.release()]. *)
Definition pass_caps (cap : nat) (it : iteration) (opened : list nat)
  : list nat :=
  match on_read it with
  | Return _ => opened
  | Raise _ => cap :: opened
  end.

(** The passes a run goes through: up to the first one that breaks. *)
Fixpoint executed (its : list iteration) : list iteration :=
  match its with
  | [] => []
  | it :: rest =>
      it :: match next_step it with
            | Continue => executed rest
            | Break => []
            end
  end.

Fixpoint run_events (url : string) (cap : nat) (its : list iteration)
  : list event :=
  match its with
  | [] => []
  | it :: rest => pass_events url cap it ++ run_events url (S cap) rest
  end.

Fixpoint run_caps (cap : nat) (its : list iteration) (opened : list nat)
  : list nat :=
  match its with
  | [] => opened
  | it :: rest => run_caps (S cap) rest (pass_caps cap it opened)
  end.

Definition continues (it : iteration) : bool :=
  match next_step it with
  | Continue => true
  | Break => false
  end.

Definition run_status (its : list iteration) : status :=
  if forallb continues its then Polling else Stopped.

(** The result of a block that raises [raising]. *)
Definition outcome (raising : option exn) : result unit :=
  match raising with
  | None => Return tt
  | Some e => Raise e
  end.

(** The effect of a run on the world. *)
Definition run_world (its : list iteration) (url : string) (w : world)
  : world :=
  mk_world (log_file w ++ render (flat_map entries (executed its)))
           (run_caps (caps_next w) (executed its) (caps_open w))
           (caps_next w + length (executed its))
           (trace w ++ run_events url (caps_next w) (executed its)).

(** A pass in which nothing but the capture can fail: [cap.read()]
    answers, [scan_qr_code] returns for a captured frame, every write
    succeeds and the sleep is not cut short. *)
Definition plain (it : iteration) : Prop :=
  (exists r fr, on_read it = Return (r, fr)) /\
  (forall fr, on_read it = Return (true, fr) ->
              exists qr_codes, scan_qr_code fr = Return qr_codes) /\
  Forall (fun answer => answer = None) (on_write it) /\
  on_sleep it = None.

End Program.

(** ** Reading the log back *)

(** Reading the log back in the words of the specification.
    [split_on c s] is [s.split(c)]. *)
Fixpoint split_on (sep : ascii) (s : string) : list string :=
  match s with
  | EmptyString => [EmptyString]
  | String c s' =>
      if Ascii.eqb c sep then EmptyString :: split_on sep s'
      else
        match split_on sep s' with
        | [] => [String c EmptyString]
        | l :: ls => String c l :: ls
        end
  end.

(** [line.split(", ", 1)]: the fields before and after the first
    separator. *)
Fixpoint split_entry (line : string) : option (string * string) :=
  match line with
  | EmptyString => None
  | String c rest =>
      match rest with
      | String d rest' =>
          if Ascii.eqb c "," && Ascii.eqb d " " then Some (EmptyString, rest')
          else
            match split_entry rest with
            | Some (ts, p) => Some (String c ts, p)
            | None => None
            end
      | EmptyString => None
      end
  end.

(** The entries of a list of lines. *)
Fixpoint parse_entries (lines : list string)
  : option (list (string * string)) :=
  match lines with
  | [] => Some []
  | l :: rest =>
      match split_entry l, parse_entries rest with
      | Some e, Some es => Some (e :: es)
      | _, _ => None
      end
  end.

(** Every line is an entry; the text after the last newline is empty. *)
Definition parse_log (text : string) : option (list (string * string)) :=
  let lines := split_on LF text in
  if String.eqb (last lines EmptyString) EmptyString
  then parse_entries (removelast lines)
  else None.

(** A line without its newline. *)
Definition line_text (e : string * string) : string :=
  fst e ++ ", " ++ snd e.

(** The lines of a text: one for every newline in it. *)
Fixpoint count_lines (s : string) : nat :=
  match s with
  | EmptyString => 0
  | String c s' => (if Ascii.eqb c LF then 1 else 0) + count_lines s'
  end.

(** An entry that reads back: no comma and no newline in the timestamp, no
    newline in the payload. *)
Definition entry_ok (e : string * string) : bool :=
  no_comma (fst e) && no_newline (fst e) && no_newline (snd e).

(** ** Observations on traces *)

Definition is_write (e : event) : bool :=
  match e with ev_write _ => true | _ => false end.

Definition is_sleep (e : event) : bool :=
  match e with ev_sleep _ => true | _ => false end.

(** Capture, decode and log activity as it shows in the trace. *)
Definition is_activity (e : event) : bool :=
  match e with
  | ev_VideoCapture _ _ | ev_read _ _ | ev_release _ | ev_write _ => true
  | _ => false
  end.

Definition count_writes (tr : list event) : nat :=
  length (filter is_write tr).

Definition count_sleeps (tr : list event) : nat :=
  length (filter is_sleep tr).

Definition total_payloads {L : Libraries} (its : list iteration) : nat :=
  list_sum (map (fun it => length (payloads it)) its).

(** The payloads of each pass, cut to the count given for the pass, with
    the clock reading of the pass. *)
Definition stamped {L : Libraries} (its : list iteration) (counts : list nat)
  : list (struct_time * string) :=
  flat_map
    (fun ic =>
       map (pair (on_gmtime (fst ic))) (firstn (snd ic) (payloads (fst ic))))
    (combine its counts).

(** The entry of the log for a payload and a clock reading. *)
Definition stamp (e : struct_time * string) : string * string :=
  (strftime "%Y-%m-%d %H:%M:%S" (fst e), snd e).

(** ** A concrete setting

    Frames are given by the bytes of the codes in view; the codec is the
    identity, as it is on ASCII. *)

Definition demo : Libraries := {|
  frame := list bytes;
  decode := fun fr => Return (map mkDecoded fr);
  decode_utf8 := fun b => Return b
|}.

Definition demo_url : string := "http://esp32-cam/stream".

Definition demo_log : string := "lap_log.txt".

Definition new_year_2024 : struct_time := mk_time 2024 1 1 0 0 0.

Definition world0 : world := mk_world EmptyString [] 0 [].

(** A pass that sees the codes [codes] at time [t]. *)
Definition sees (codes : list bytes) (t : struct_time) : @iteration demo :=
  @mk_iteration demo (Return (true, codes)) t [] None.

(** A pass whose capture obtains no frame. *)
Definition no_frame (t : struct_time) : @iteration demo :=
  @mk_iteration demo (Return (false, [])) t [] None.

Definition year_end_2024 : struct_time := mk_time 2024 12 31 23 59 59.

(** A capture failure, a lap, an empty frame, and two laps in one frame. *)
Definition four_passes : list (@iteration demo) :=
  [no_frame new_year_2024; sees ["A"] new_year_2024; sees [] new_year_2024;
   sees ["B"; "C"] year_end_2024].

(** A payload of two lines, the second of which looks like an entry. *)
Definition two_line_payload : bytes :=
  "A" ++ newline ++ "2024-01-01 00:00:00, B".

(** A pass that sees [codes] and is interrupted during its sleep. *)
Definition interrupted (codes : list bytes) (t : struct_time)
  : @iteration demo :=
  @mk_iteration demo (Return (true, codes)) t [] (Some KeyboardInterrupt).

(** Every [cap.read()] of the passes answers. *)
Definition reads_answer {L : Libraries} (its : list iteration) : Prop :=
  Forall (fun it => exists r fr, on_read it = Return (r, fr)) its.

(** ** Further observations on traces and passes *)

(** The notification printed after a write. *)
Definition is_lap_print (e : event) : bool :=
  match e with
  | ev_print text => prefix "Lap logged: " text
  | _ => false
  end.

(** The message of the [KeyboardInterrupt] handler. *)
Definition is_stop_print (e : event) : bool :=
  match e with
  | ev_print text => String.eqb text "Logging stopped."
  | _ => false
  end.

(** A write or the notification of one. *)
Definition write_or_lap_print (e : event) : bool :=
  is_write e || is_lap_print e.

(** The write of an entry and its notification. *)
Definition lap_pair (e : string * string) : list event :=
  [ev_write (log_line (fst e) (snd e));
   ev_print ("Lap logged: " ++ snd e ++ " at " ++ fst e)].

(** The captures opened in a trace: address and handle. *)
Definition opened (tr : list event) : list (string * nat) :=
  flat_map
    (fun e =>
       match e with
       | ev_VideoCapture url cap => [(url, cap)]
       | _ => []
       end)
    tr.



(** [obj.data.decode('utf-8')] returns [s]. *)
Definition decodes_to {L : Libraries} (obj : Decoded) (s : string) : Prop :=
  decode_utf8 (data obj) = Return s.

(** A setting whose codec accepts the bytes below 128 and raises on the
    others, as UTF-8 does on a lone byte above 127. *)
Definition ascii_only : Libraries := {|
  frame := list bytes;
  decode := fun fr => Return (map mkDecoded fr);
  decode_utf8 := fun b =>
    if string_forallb (fun c => Nat.ltb (nat_of_ascii c) 128) b
    then Return b
    else Raise (Exception "'utf-8' codec can't decode byte")
|}.

Definition high_byte : bytes := String (ascii_of_nat 255) EmptyString.

(** A pass of [ascii_only] that sees the codes [codes]. *)
Definition views (codes : list bytes) (t : struct_time)
  : @iteration ascii_only :=
  @mk_iteration ascii_only (Return (true, codes)) t [] None.

(** A pass that sees [codes]; its [k]-th write raises [e]. *)
Definition write_fails (codes : list bytes) (t : struct_time) (k : nat)
  (e : exn) : @iteration demo :=
  @mk_iteration demo (Return (true, codes)) t (repeat None k ++ [Some e]) None.

(** A pass whose [cap.read()] raises [e]. *)
Definition read_fails (t : struct_time) (e : exn) : @iteration demo :=
  @mk_iteration demo (Raise e) t [] None.

(** * Properties *)

(** ** Strings *)

Lemma append_nil_r (s : string) : s ++ EmptyString = s.
Proof. induction s as [|c s IH]; simpl; congruence. Qed.

Lemma append_assoc (a b c : string) : (a ++ b) ++ c = a ++ (b ++ c).
Proof. induction a as [|x a IH]; simpl; congruence. Qed.

Lemma join_app (l1 l2 : list string) : join (l1 ++ l2) = join l1 ++ join l2.
Proof.
  induction l1 as [|x l1 IH]; simpl; auto.
  rewrite IH, append_assoc. reflexivity.
Qed.

Lemma render_app (es1 es2 : list (string * string)) :
  render (es1 ++ es2) = render es1 ++ render es2.
Proof. unfold render. rewrite map_app. apply join_app. Qed.

(** ** The format of the timestamp *)

Lemma all_below_spec (p : nat -> bool) (n : nat) :
  all_below n p = true -> forall k, k < n -> p k = true.
Proof.
  induction n as [|n IH]; simpl; intros H k Hk.
  - lia.
  - apply andb_true_iff in H. destruct H as [Hn H].
    destruct (Nat.eq_dec k n) as [->|Hne]; auto.
    apply IH; auto. lia.
Qed.

Lemma of_uint_acc_cons (k : nat) (d : uint) (acc : nat) :
  k < 10 ->
  Nat.of_uint_acc (cons_digit k d) acc = Nat.of_uint_acc d (k + 10 * acc).
Proof.
  intros H.
  do 10 (destruct k as [|k];
         [cbn [cons_digit Nat.of_uint_acc]; rewrite Nat.tail_mul_spec;
          reflexivity|]).
  lia.
Qed.

Lemma string_of_cons (k : nat) (d : uint) :
  k < 10 ->
  NilEmpty.string_of_uint (cons_digit k d) =
  String (digit k) (NilEmpty.string_of_uint d).
Proof.
  intros H. do 10 (destruct k as [|k]; [reflexivity|]). lia.
Qed.

Lemma unorm_cons (k : nat) (d : uint) :
  1 <= k < 10 -> unorm (cons_digit k d) = cons_digit k d.
Proof.
  intros H. destruct k as [|k]; [lia|].
  do 9 (destruct k as [|k]; [reflexivity|]). lia.
Qed.

Lemma digit_mod (n : nat) : digit (n mod 10) = digit n.
Proof. unfold digit. rewrite Nat.Div0.mod_mod. reflexivity. Qed.

(** The decimal writing of a year of four digits, through the number its
    four digits make. *)
Lemma decimal_pad4 (y : nat) : 1000 <= y < 10 * 1000 -> decimal y = pad4 y.
Proof.
  intros H.
  set (a := y / 1000). set (b := (y / 100) mod 10).
  set (c := (y / 10) mod 10). set (e := y mod 10).
  set (u := cons_digit a (cons_digit b (cons_digit c (cons_digit e Nil)))).
  assert (Ha : 1 <= a < 10).
  { subst a. split.
    - apply Nat.div_le_lower_bound; lia.
    - apply Nat.Div0.div_lt_upper_bound; lia. }
  assert (Hb : b < 10) by (apply Nat.mod_upper_bound; lia).
  assert (Hc : c < 10) by (apply Nat.mod_upper_bound; lia).
  assert (He : e < 10) by (apply Nat.mod_upper_bound; lia).
  assert (Hy : Nat.of_uint u = y).
  { unfold Nat.of_uint. subst u.
    rewrite !of_uint_acc_cons by lia. cbn [Nat.of_uint_acc].
    subst a b c e.
    assert (Q1 : y / 100 = y / 10 / 10)
      by (rewrite Nat.Div0.div_div; reflexivity).
    assert (Q2 : y / 1000 = y / 100 / 10)
      by (rewrite Nat.Div0.div_div; reflexivity).
    pose proof (Nat.div_mod_eq y 10) as E1.
    pose proof (Nat.div_mod_eq (y / 10) 10) as E2.
    pose proof (Nat.div_mod_eq (y / 100) 10) as E3.
    rewrite <- Q1 in E2. rewrite <- Q2 in E3.
    lia. }
  unfold decimal. rewrite <- Hy at 1. rewrite DecimalNat.Unsigned.to_of.
  subst u. rewrite unorm_cons by lia.
  rewrite !string_of_cons by lia. cbn [NilEmpty.string_of_uint].
  subst a b c e. unfold pad4, pad2. rewrite !digit_mod. reflexivity.
Qed.

Lemma two_digits_pad2 (n : nat) : n < 100 -> two_digits n = pad2 n.
Proof.
  intros H.
  assert (E : all_below 100 (fun k => String.eqb (two_digits k) (pad2 k))
              = true) by (vm_compute; reflexivity).
  apply all_below_spec with (k := n) in E; [|lia].
  apply String.eqb_eq, E.
Qed.

Lemma strftime_fields (t : struct_time) :
  strftime "%Y-%m-%d %H:%M:%S" t =
  decimal (tm_year t) ++ "-" ++ two_digits (tm_mon t) ++ "-"
    ++ two_digits (tm_mday t) ++ " " ++ two_digits (tm_hour t) ++ ":"
    ++ two_digits (tm_min t) ++ ":" ++ two_digits (tm_sec t).
Proof.
  cbn. rewrite append_nil_r. reflexivity.
Qed.

Lemma strftime_shape (t : struct_time) :
  valid_time t -> strftime "%Y-%m-%d %H:%M:%S" t = YYYY_MM_DD_HH_MM_SS t.
Proof.
  intros (Hy & Hm & Hd & HH & HM & HS).
  rewrite strftime_fields. unfold YYYY_MM_DD_HH_MM_SS.
  rewrite (decimal_pad4 _ Hy), !two_digits_pad2 by lia.
  reflexivity.
Qed.

(** ** Reading back what was rendered *)

Lemma string_forallb_app (p : ascii -> bool) (a b : string) :
  string_forallb p (a ++ b) = string_forallb p a && string_forallb p b.
Proof.
  induction a as [|c a IH]; simpl; auto.
  rewrite IH, andb_assoc. reflexivity.
Qed.

Lemma string_forallb_impl (p q : ascii -> bool) (s : string) :
  (forall c, p c = true -> q c = true) ->
  string_forallb p s = true -> string_forallb q s = true.
Proof.
  intros H. induction s as [|c s IH]; simpl; auto.
  intros Hs. apply andb_true_iff in Hs. destruct Hs as [Hc Hs].
  rewrite (H c Hc), (IH Hs). reflexivity.
Qed.

Lemma decimal_digits (n : nat) : string_forallb is_digit (decimal n) = true.
Proof.
  unfold decimal.
  induction (Nat.to_uint n)
    as [|d IH|d IH|d IH|d IH|d IH|d IH|d IH|d IH|d IH|d IH];
    cbn [NilEmpty.string_of_uint string_forallb]; rewrite ?IH; reflexivity.
Qed.

Lemma two_digits_digits (n : nat) :
  string_forallb is_digit (two_digits n) = true.
Proof.
  unfold two_digits. destruct (Nat.ltb n 10).
  - cbn [append string_forallb]. rewrite decimal_digits. reflexivity.
  - apply decimal_digits.
Qed.

Lemma stamp_char_safe (c : ascii) :
  stamp_char c = true ->
  negb (Ascii.eqb c ",") = true /\ negb (Ascii.eqb c LF) = true.
Proof.
  destruct c as [[] [] [] [] [] [] [] []]; vm_compute; intros H;
    (discriminate H || auto).
Qed.

Lemma timestamp_chars (t : struct_time) :
  string_forallb stamp_char (strftime "%Y-%m-%d %H:%M:%S" t) = true.
Proof.
  assert (Hd : forall c, is_digit c = true -> stamp_char c = true).
  { intros c Hc. unfold stamp_char. rewrite Hc. reflexivity. }
  assert (H4 : forall n, string_forallb stamp_char (decimal n) = true).
  { intros n. apply (string_forallb_impl _ _ _ Hd), decimal_digits. }
  assert (H2 : forall n, string_forallb stamp_char (two_digits n) = true).
  { intros n. apply (string_forallb_impl _ _ _ Hd), two_digits_digits. }
  rewrite strftime_fields, !string_forallb_app, H4, !H2. reflexivity.
Qed.

Lemma timestamp_ok (t : struct_time) :
  no_comma (strftime "%Y-%m-%d %H:%M:%S" t) = true /\
  no_newline (strftime "%Y-%m-%d %H:%M:%S" t) = true.
Proof.
  split.
  - apply (string_forallb_impl stamp_char); [|apply timestamp_chars].
    intros c Hc. apply stamp_char_safe, Hc.
  - apply (string_forallb_impl stamp_char); [|apply timestamp_chars].
    intros c Hc. apply stamp_char_safe, Hc.
Qed.

Lemma split_on_line (a rest : string) :
  no_newline a = true ->
  split_on LF (a ++ String LF rest) = a :: split_on LF rest.
Proof.
  unfold no_newline.
  induction a as [|c a IH]; cbn [append split_on string_forallb]; intros H.
  - rewrite Ascii.eqb_refl. reflexivity.
  - apply andb_true_iff in H. destruct H as [Hc H].
    apply negb_true_iff in Hc. rewrite Hc, (IH H). reflexivity.
Qed.

Lemma split_entry_line (ts p : string) :
  no_comma ts = true -> split_entry (ts ++ ", " ++ p) = Some (ts, p).
Proof.
  unfold no_comma.
  induction ts as [|c ts IH]; cbn [append string_forallb]; intros H.
  - reflexivity.
  - apply andb_true_iff in H. destruct H as [Hc H].
    apply negb_true_iff in Hc. specialize (IH H).
    change (", " ++ p) with (String "," (String " " p)) in IH.
    cbn [split_entry].
    destruct (ts ++ String "," (String " " p)) as [|d rest'] eqn:E.
    + destruct ts; discriminate E.
    + rewrite Hc. cbn [andb]. rewrite IH. reflexivity.
Qed.

Lemma log_line_text (e : string * string) (rest : string) :
  log_line (fst e) (snd e) ++ rest = line_text e ++ String LF rest.
Proof.
  unfold log_line, line_text, newline. rewrite !append_assoc. reflexivity.
Qed.

Lemma entry_ok_line (e : string * string) :
  entry_ok e = true -> no_newline (line_text e) = true.
Proof.
  unfold entry_ok, line_text, no_newline. intros H.
  apply andb_true_iff in H. destruct H as [H H3].
  apply andb_true_iff in H. destruct H as [H1 H2].
  unfold no_newline in *. rewrite !string_forallb_app, H2, H3. reflexivity.
Qed.

Lemma split_on_render (es : list (string * string)) (s : string) :
  forallb entry_ok es = true ->
  split_on LF (render es ++ s) = (map line_text es ++ split_on LF s)%list.
Proof.
  unfold render.
  induction es as [|e es IH]; cbn [map join forallb app]; intros H.
  - reflexivity.
  - apply andb_true_iff in H. destruct H as [He H].
    rewrite append_assoc, log_line_text, split_on_line, (IH H);
      [reflexivity|apply entry_ok_line, He].
Qed.

Lemma parse_entries_lines (es : list (string * string)) :
  forallb entry_ok es = true -> parse_entries (map line_text es) = Some es.
Proof.
  induction es as [|[ts p] es IH]; cbn [map parse_entries forallb]; intros H.
  - reflexivity.
  - apply andb_true_iff in H. destruct H as [He H].
    unfold entry_ok in He. cbn [fst snd] in He.
    apply andb_true_iff in He. destruct He as [He _].
    apply andb_true_iff in He. destruct He as [He _].
    rewrite (IH H). unfold line_text. cbn [fst snd].
    rewrite (split_entry_line ts p He). reflexivity.
Qed.

Lemma parse_entries_app (l1 l2 : list string) (a b : list (string * string)) :
  parse_entries l1 = Some a -> parse_entries l2 = Some b ->
  parse_entries (l1 ++ l2) = Some (a ++ b)%list.
Proof.
  revert a. induction l1 as [|l l1 IH]; simpl; intros a Ha Hb.
  - injection Ha as <-. exact Hb.
  - destruct (split_entry l) as [e|]; [|discriminate].
    destruct (parse_entries l1) as [es|]; [|discriminate].
    injection Ha as <-. rewrite (IH es eq_refl Hb). reflexivity.
Qed.

Lemma split_on_nonempty (sep : ascii) (s : string) : split_on sep s <> [].
Proof.
  destruct s as [|c s]; cbn [split_on].
  - discriminate.
  - destruct (Ascii.eqb c sep); [discriminate|].
    destruct (split_on sep s); discriminate.
Qed.

(** Text appended to a log that ends a line starts a new one. *)
Lemma split_on_append (f0 s : string) :
  last (split_on LF f0) EmptyString = EmptyString ->
  split_on LF (f0 ++ s) = (removelast (split_on LF f0) ++ split_on LF s)%list.
Proof.
  induction f0 as [|c f0 IH]; cbn [append split_on]; intros H.
  - reflexivity.
  - pose proof (split_on_nonempty LF f0) as Hne.
    destruct (Ascii.eqb c LF).
    + destruct (split_on LF f0) as [|l ls] eqn:E; [contradiction|].
      cbn [last removelast] in *. rewrite (IH H). reflexivity.
    + destruct (split_on LF f0) as [|l ls] eqn:E; [contradiction|].
      destruct ls as [|l' ls].
      * cbn [last] in H. discriminate H.
      * cbn [last removelast] in *. rewrite (IH H). reflexivity.
Qed.

Lemma parse_log_render (es : list (string * string)) :
  forallb entry_ok es = true -> parse_log (render es) = Some es.
Proof.
  intros H. unfold parse_log.
  rewrite <- (append_nil_r (render es)), (split_on_render es _ H).
  cbn [split_on]. rewrite last_last, removelast_last. cbn [String.eqb].
  apply parse_entries_lines, H.
Qed.

Lemma parse_log_append (f0 : string) (old es : list (string * string)) :
  parse_log f0 = Some old -> forallb entry_ok es = true ->
  parse_log (f0 ++ render es) = Some (old ++ es)%list.
Proof.
  unfold parse_log. intros H0 H.
  destruct (String.eqb (last (split_on LF f0) EmptyString) EmptyString) eqn:E;
    [|discriminate].
  apply String.eqb_eq in E. rewrite (split_on_append f0 _ E).
  rewrite <- (append_nil_r (render es)), (split_on_render es _ H).
  cbn [split_on]. rewrite !app_assoc, last_last, removelast_last.
  cbn [String.eqb].
  apply parse_entries_app; [exact H0|apply parse_entries_lines, H].
Qed.

(** ** Counting the lines of a text *)

Lemma count_lines_app (a b : string) :
  count_lines (a ++ b) = count_lines a + count_lines b.
Proof.
  induction a as [|c a IH]; cbn [append count_lines]; auto.
  rewrite IH. lia.
Qed.

Lemma count_lines_no_newline (s : string) :
  no_newline s = true -> count_lines s = 0.
Proof.
  unfold no_newline.
  induction s as [|c s IH]; cbn [string_forallb count_lines]; auto.
  intros H. apply andb_true_iff in H. destruct H as [Hc H].
  apply negb_true_iff in Hc. rewrite Hc, (IH H). reflexivity.
Qed.

(** The lines [s.split("\n")] finds are one more than the newlines. *)
Lemma length_split_on (s : string) :
  length (split_on LF s) = S (count_lines s).
Proof.
  induction s as [|c s IH]; cbn [split_on count_lines]; auto.
  pose proof (split_on_nonempty LF s) as Hne.
  destruct (Ascii.eqb c LF); cbn [length].
  - rewrite IH. reflexivity.
  - destruct (split_on LF s) as [|l ls]; [contradiction|].
    cbn [length] in *. rewrite IH. reflexivity.
Qed.

Lemma count_lines_render (es : list (string * string)) :
  forallb entry_ok es = true -> count_lines (render es) = length es.
Proof.
  unfold render.
  induction es as [|e es IH]; cbn [map join forallb length]; auto.
  intros H. apply andb_true_iff in H. destruct H as [He H].
  rewrite log_line_text, count_lines_app,
    (count_lines_no_newline _ (entry_ok_line e He)).
  cbn [count_lines]. rewrite Ascii.eqb_refl, (IH H). reflexivity.
Qed.

(** ** The program against its description *)

Ltac world_simpl :=
  cbn [fst snd log_file caps_open caps_next trace outcome] in *.

Section Passes.

Context {L : Libraries}.

(** The path of the log file. *)
Variable qr_log_file : string.

Lemma capture_frame_spec (it : iteration) (url : string) (w : world) :
  capture_frame (on_read it) url w =
  (captured it,
   mk_world (log_file w) (pass_caps (caps_next w) it (caps_open w))
            (S (caps_next w))
            (trace w ++ capture_events url (caps_next w) it)).
Proof.
  unfold capture_frame, captured, pass_caps, capture_events, bind,
    VideoCapture, cap_read, cap_release, emit.
  destruct (on_read it) as [[[] fr]|e]; simpl;
    rewrite ?Nat.eqb_refl, <- ?app_assoc; reflexivity.
Qed.

Lemma write_laps_spec (current_time : string) (qr_codes : list string) :
  forall (answers : list (option exn)) (w : world),
    write_laps current_time qr_codes answers w =
    (match write_fault qr_codes answers with
     | None => Return tt
     | Some e => Raise e
     end,
     mk_world
       (log_file w
          ++ join (map (log_line current_time) (written qr_codes answers)))
       (caps_open w) (caps_next w)
       (trace w ++ lap_events current_time (written qr_codes answers))).
Proof.
  induction qr_codes as [|q rest IH]; intros answers w; simpl.
  - unfold ret. rewrite append_nil_r, app_nil_r. destruct w; reflexivity.
  - unfold bind, f_write, print, emit.
    destruct (hd None answers) as [e|]; simpl.
    + rewrite append_nil_r, app_nil_r. destruct w; reflexivity.
    + rewrite IH. simpl. rewrite append_assoc, <- !app_assoc. reflexivity.
Qed.

Lemma render_entries (it : iteration) :
  render (entries it) = join (map (log_line (timestamp it)) (logged it)).
Proof. unfold render, entries. rewrite map_map. reflexivity. Qed.

(** One pass of the loop: it never raises, and its result and its effect
    on the world are those read off the answers. *)
Lemma loop_body_spec (it : iteration) (url : string) (w : world) :
  loop_body it url w =
  (Return (next_step it),
   mk_world (log_file w ++ render (entries it))
            (pass_caps (caps_next w) it (caps_open w))
            (S (caps_next w))
            (trace w ++ pass_events url (caps_next w) it)).
Proof.
  rewrite render_entries.
  unfold loop_body, try_except, try_block, capture_scan_log, bind.
  rewrite capture_frame_spec.
  unfold next_step, raised, raised_before_sleep, pass_events, sleep_events,
    handler_events, raised, raised_before_sleep, logged, payloads, lift.
  destruct (captured it) as [fr|e]; simpl.
  - destruct (scan_qr_code fr) as [qr|e]; simpl.
    + assert (Hw : forall w0 : world,
        (if truthy qr
         then write_laps (strftime "%Y-%m-%d %H:%M:%S" (on_gmtime it)) qr
                (on_write it)
         else ret tt) w0 =
        write_laps (timestamp it) qr (on_write it) w0).
      { intros w0. destruct qr; reflexivity. }
      rewrite Hw, write_laps_spec. clear Hw.
      destruct (write_fault qr (on_write it)) as [e|]; simpl.
      * destruct e; unfold print, ret, emit; simpl;
          rewrite <- ?app_assoc; reflexivity.
      * unfold time_sleep.
        destruct (on_sleep it) as [e|]; simpl.
        -- destruct e; unfold print, ret, emit; simpl;
             rewrite <- ?app_assoc; reflexivity.
        -- unfold ret, emit; simpl. rewrite <- ?app_assoc, ?app_nil_r.
           reflexivity.
    + rewrite append_nil_r.
      destruct e; unfold print, ret, emit; simpl;
        rewrite <- ?app_assoc; reflexivity.
  - rewrite append_nil_r.
    destruct e; unfold print, ret, emit; simpl;
      rewrite <- ?app_assoc; reflexivity.
Qed.

Lemma while_True_spec (url : string) (its : list iteration) :
  forall w : world,
    while_True its url w = (Return (run_status its), run_world its url w).
Proof.
  unfold run_world, run_status.
  induction its as [|it rest IH]; intros w; simpl.
  - unfold ret, render. simpl.
    rewrite append_nil_r, app_nil_r, Nat.add_0_r. destruct w; reflexivity.
  - unfold bind. rewrite loop_body_spec. unfold continues at 1.
    destruct (next_step it); simpl.
    + rewrite IH. simpl.
      rewrite render_app, append_assoc, <- app_assoc, Nat.add_succ_r.
      reflexivity.
    + unfold ret. simpl.
      rewrite !app_nil_r, Nat.add_1_r. reflexivity.
Qed.

Lemma log_laps_spec (url : string) (its : list iteration) (w : world) :
  log_laps its qr_log_file url w =
  (Return (run_status its), run_world its url w).
Proof.
  unfold log_laps, bind, open_file. simpl. apply while_True_spec.
Qed.

(** ** Counting the writes of a run *)

Lemma count_writes_app (tr1 tr2 : list event) :
  count_writes (tr1 ++ tr2) = count_writes tr1 + count_writes tr2.
Proof. unfold count_writes. rewrite filter_app, length_app. reflexivity. Qed.

Lemma count_sleeps_app (tr1 tr2 : list event) :
  count_sleeps (tr1 ++ tr2) = count_sleeps tr1 + count_sleeps tr2.
Proof. unfold count_sleeps. rewrite filter_app, length_app. reflexivity. Qed.

Lemma count_writes_lap_events (current_time : string) (qr_codes : list string) :
  count_writes (lap_events current_time qr_codes) = length qr_codes.
Proof.
  induction qr_codes as [|q rest IH]; simpl; auto.
  unfold count_writes in *. simpl. rewrite IH. reflexivity.
Qed.

Lemma count_writes_pass_events (url : string) (cap : nat) (it : iteration) :
  count_writes (pass_events url cap it) = length (logged it).
Proof.
  unfold pass_events. rewrite !count_writes_app, count_writes_lap_events.
  assert (H1 : count_writes (capture_events url cap it) = 0).
  { unfold capture_events. destruct (on_read it) as [[r fr]|e]; reflexivity. }
  assert (H2 : count_writes (sleep_events it) = 0).
  { unfold sleep_events.
    destruct (raised_before_sleep it), (on_sleep it); reflexivity. }
  assert (H3 : count_writes (handler_events it) = 0).
  { unfold handler_events. destruct (raised it) as [[|msg]|]; reflexivity. }
  rewrite H1, H2, H3. lia.
Qed.

Lemma length_entries (it : iteration) :
  length (entries it) = length (logged it).
Proof. unfold entries. apply length_map. Qed.

Lemma count_writes_run_events (url : string) (its : list iteration) :
  forall cap : nat,
    count_writes (run_events url cap its) = length (flat_map entries its).
Proof.
  induction its as [|it rest IH]; intros cap; cbn [run_events flat_map]; auto.
  rewrite count_writes_app, count_writes_pass_events, IH, length_app,
    length_entries.
  reflexivity.
Qed.

Lemma written_all (qr_codes : list string) :
  forall answers : list (option exn),
    Forall (fun answer => answer = None) answers ->
    written qr_codes answers = qr_codes /\ write_fault qr_codes answers = None.
Proof.
  induction qr_codes as [|q rest IH]; intros answers H; simpl; auto.
  destruct H as [|a answers Ha H]; simpl.
  - destruct (IH [] (Forall_nil _)) as [E1 E2]. rewrite E1, E2. auto.
  - subst a. destruct (IH answers H) as [E1 E2]. rewrite E1, E2. auto.
Qed.

Lemma plain_logged (it : iteration) : plain it -> logged it = payloads it.
Proof.
  intros (_ & _ & Hw & _). unfold logged. apply written_all, Hw.
Qed.

Lemma plain_continues (it : iteration) : plain it -> next_step it = Continue.
Proof.
  intros ((r & fr & Hr) & Hs & Hw & Hz).
  unfold next_step, raised, raised_before_sleep, captured. rewrite Hr.
  destruct r; [|reflexivity].
  destruct (Hs fr Hr) as [qr Hq]. rewrite Hq.
  destruct (written_all qr (on_write it) Hw) as [_ E]. rewrite E, Hz.
  reflexivity.
Qed.

Lemma executed_plain (its : list iteration) :
  Forall plain its -> executed its = its.
Proof.
  induction 1 as [|it rest Hit _ IH]; simpl; auto.
  rewrite (plain_continues it Hit), IH. reflexivity.
Qed.

Lemma flat_map_entries_plain (its : list iteration) :
  Forall plain its ->
  flat_map entries its =
  flat_map (fun it => map (pair (timestamp it)) (payloads it)) its.
Proof.
  induction 1 as [|it rest Hit _ IH]; simpl; auto.
  unfold entries at 1. rewrite (plain_logged it Hit), IH. reflexivity.
Qed.

Lemma length_stamped_payloads (its : list iteration) :
  length (flat_map (fun it => map (pair (timestamp it)) (payloads it)) its) =
  total_payloads its.
Proof.
  unfold total_payloads.
  induction its as [|it rest IH]; simpl; auto.
  rewrite length_app, length_map, IH. reflexivity.
Qed.

(** ** The parts of a pass *)

Lemma capture_scan_log_spec (it : iteration) (url : string) (w : world) :
  capture_scan_log it url w =
  (outcome (raised_before_sleep it),
   mk_world (log_file w ++ render (entries it))
            (pass_caps (caps_next w) it (caps_open w))
            (S (caps_next w))
            (trace w ++ capture_events url (caps_next w) it
               ++ lap_events (timestamp it) (logged it))).
Proof.
  rewrite render_entries.
  unfold capture_scan_log, bind. rewrite capture_frame_spec.
  unfold raised_before_sleep, logged, payloads, lift, outcome.
  destruct (captured it) as [fr|e]; simpl.
  - destruct (scan_qr_code fr) as [qr|e]; simpl.
    + assert (Hw : forall w0 : world,
        (if truthy qr
         then write_laps (strftime "%Y-%m-%d %H:%M:%S" (on_gmtime it)) qr
                (on_write it)
         else ret tt) w0 =
        write_laps (timestamp it) qr (on_write it) w0).
      { intros w0. destruct qr; reflexivity. }
      rewrite Hw, write_laps_spec. simpl. rewrite <- app_assoc.
      destruct (write_fault qr (on_write it)); reflexivity.
    + rewrite append_nil_r, app_nil_r. reflexivity.
  - rewrite append_nil_r, app_nil_r. reflexivity.
Qed.

Lemma try_block_spec (it : iteration) (url : string) (w : world) :
  try_block it url w =
  (outcome (raised it),
   mk_world (log_file w ++ render (entries it))
            (pass_caps (caps_next w) it (caps_open w))
            (S (caps_next w))
            (trace w ++ capture_events url (caps_next w) it
               ++ lap_events (timestamp it) (logged it) ++ sleep_events it)).
Proof.
  unfold try_block, bind. rewrite capture_scan_log_spec.
  unfold raised, sleep_events, time_sleep, emit.
  destruct (raised_before_sleep it) as [e|]; world_simpl.
  - rewrite app_nil_r. reflexivity.
  - destruct (on_sleep it) as [e|]; world_simpl.
    + rewrite app_nil_r. reflexivity.
    + rewrite <- !app_assoc. reflexivity.
Qed.

Lemma captured_raises (it : iteration) (url : string) (w : world) (e : exn) :
  fst (capture_frame (on_read it) url w) = Raise e ->
  raised_before_sleep it = Some e /\ raised it = Some e /\ logged it = [].
Proof.
  rewrite capture_frame_spec. world_simpl. intros H.
  unfold raised, raised_before_sleep, logged, payloads. rewrite H. auto.
Qed.

Lemma outcome_raises (raising : option exn) (e : exn) :
  outcome raising = Raise e <-> raising = Some e.
Proof.
  destruct raising as [e'|]; simpl; split; intros H;
    try discriminate; congruence.
Qed.

Lemma count_sleeps_capture_events (url : string) (cap : nat) (it : iteration) :
  count_sleeps (capture_events url cap it) = 0.
Proof.
  unfold capture_events. destruct (on_read it) as [[r fr]|e]; reflexivity.
Qed.

Lemma count_sleeps_lap_events (current_time : string) (qr_codes : list string) :
  count_sleeps (lap_events current_time qr_codes) = 0.
Proof. induction qr_codes as [|q rest IH]; simpl; auto. Qed.

(** A run goes on where its first part left it. *)
Lemma while_True_app (url : string) (pre rest : list iteration) :
  forall w : world,
    fst (while_True pre url w) = Return Polling ->
    while_True (pre ++ rest) url w =
    while_True rest url (snd (while_True pre url w)).
Proof.
  induction pre as [|it pre IH]; intros w H; simpl in *.
  - reflexivity.
  - unfold bind in *.
    destruct (loop_body it url w) as [[[|]|e] w1]; simpl in *.
    + apply IH, H.
    + discriminate.
    + discriminate.
Qed.

Lemma loop_body_Break (it : iteration) (url : string) (w : world) :
  fst (loop_body it url w) = Return Break <->
  fst (try_block it url w) = Raise KeyboardInterrupt.
Proof.
  rewrite loop_body_spec, try_block_spec. world_simpl.
  unfold next_step. rewrite outcome_raises.
  destruct (raised it) as [[|msg]|]; split; intros H;
    try discriminate; reflexivity.
Qed.

(** A stopped run has a pass, reached while polling, in which the
    [try] block raised [KeyboardInterrupt]. *)
Lemma stopped_by_interrupt (url : string) (its : list iteration) :
  forall w : world,
    fst (while_True its url w) = Return Stopped ->
    exists pre it post,
      its = (pre ++ it :: post)%list /\
      fst (while_True pre url w) = Return Polling /\
      fst (try_block it url (snd (while_True pre url w))) =
      Raise KeyboardInterrupt.
Proof.
  induction its as [|it rest IH]; intros w H; simpl in H.
  - discriminate.
  - unfold bind in H.
    destruct (loop_body it url w) as [[[|]|e] w1] eqn:E; simpl in H.
    + destruct (IH w1 H) as (pre & it' & post & -> & Hp & Hk).
      exists (it :: pre), it', post. simpl. unfold bind. rewrite E.
      auto.
    + exists [], it, rest. simpl. repeat split.
      apply loop_body_Break. rewrite E. reflexivity.
    + discriminate.
Qed.

(** C2, as amended.  The statements of the [try] block before the sleep
    never sleep.  When they complete, whether or not a payload was found,
    the pass then sleeps for 1 unit, once, as its last action, and the
    loop goes on.  When they raise an error, the pass reports it and the
    loop goes on without sleeping; a sleep cut short is handled in the
    same way. *)
Theorem pause_follows_completed_work
  (it : iteration) (url : string) (w : world) :
  let before := capture_scan_log it url w in
  let after := loop_body it url w in
  count_sleeps (trace (snd before)) = count_sleeps (trace w) /\
  match fst before, on_sleep it with
  | Return _, None =>
      fst after = Return Continue /\
      trace (snd after) = (trace (snd before) ++ [ev_sleep 1])%list
  | Return _, Some (Exception msg) | Raise (Exception msg), _ =>
      fst after = Return Continue /\
      trace (snd after) =
      (trace (snd before) ++ [ev_print ("Error: " ++ msg)%string])%list
  | Return _, Some KeyboardInterrupt | Raise KeyboardInterrupt, _ =>
      fst after = Return Break /\
      trace (snd after) =
      (trace (snd before) ++ [ev_print "Logging stopped."])%list
  end.
Proof.
  intros before after. subst before after.
  rewrite capture_scan_log_spec, loop_body_spec. world_simpl.
  split.
  - rewrite !count_sleeps_app, count_sleeps_capture_events,
      count_sleeps_lap_events. lia.
  - unfold pass_events, next_step, sleep_events, handler_events, raised,
      outcome.
    destruct (raised_before_sleep it) as [[|msg]|];
      [| |destruct (on_sleep it) as [[|msg]|]];
      world_simpl; rewrite ?app_nil_r, <- ?app_assoc; auto.
Qed.

(** C3.  In a pass reached while the loop is polling: a capture that
    raises an error writes nothing, is reported, and the next pass runs;
    every error raised in the [try] block is caught and reported, and the
    loop goes on with the next pass; the pass leaves the loop exactly when
    the [try] block raises [KeyboardInterrupt], and a run stops only in
    such a pass. *)
Theorem errors_are_reported_and_polling_continues
  (pre : list iteration) (it : iteration) (post : list iteration)
  (url : string) (w : world) :
  fst (while_True pre url w) = Return Polling ->
  let w1 := snd (while_True pre url w) in
  let w2 := snd (loop_body it url w1) in
  (forall msg,
      fst (capture_frame (on_read it) url w1) = Raise (Exception msg) ->
      log_file w2 = log_file w1 /\
      count_writes (trace w2) = count_writes (trace w1) /\
      (exists tr,
          trace w2 = (tr ++ [ev_print ("Error: " ++ msg)%string])%list) /\
      while_True (pre ++ it :: post) url w = while_True post url w2) /\
  (forall msg,
      fst (try_block it url w1) = Raise (Exception msg) ->
      fst (loop_body it url w1) = Return Continue /\
      trace w2 =
      (trace (snd (try_block it url w1))
         ++ [ev_print ("Error: " ++ msg)%string])%list /\
      log_file w2 = log_file (snd (try_block it url w1)) /\
      while_True (pre ++ it :: post) url w = while_True post url w2) /\
  (fst (loop_body it url w1) = Return Break <->
   fst (try_block it url w1) = Raise KeyboardInterrupt) /\
  (forall its,
      fst (while_True its url w) = Return Stopped ->
      exists pre' it' post',
        its = (pre' ++ it' :: post')%list /\
        fst (while_True pre' url w) = Return Polling /\
        fst (try_block it' url (snd (while_True pre' url w))) =
        Raise KeyboardInterrupt).
Proof.
  intros Hpre w1 w2.
  assert (Hnext : next_step it = Continue ->
            while_True (pre ++ it :: post) url w = while_True post url w2).
  { intros Hc. rewrite (while_True_app url pre (it :: post) w Hpre).
    fold w1. simpl. unfold bind. subst w2.
    rewrite loop_body_spec, Hc. reflexivity. }
  repeat split.
  - subst w2. rewrite loop_body_spec. world_simpl.
    destruct (captured_raises it url w1 _ H) as (_ & _ & E).
    unfold entries. rewrite E. apply append_nil_r.
  - subst w2. rewrite loop_body_spec. world_simpl.
    rewrite count_writes_app, count_writes_pass_events.
    destruct (captured_raises it url w1 _ H) as (_ & _ & E).
    rewrite E. simpl. lia.
  - subst w2. rewrite loop_body_spec. world_simpl.
    destruct (captured_raises it url w1 _ H) as (E1 & E2 & E3).
    unfold pass_events, handler_events. rewrite E2.
    eexists. rewrite !app_assoc. reflexivity.
  - apply Hnext.
    destruct (captured_raises it url w1 _ H) as (_ & E & _).
    unfold next_step. rewrite E. reflexivity.
  - rewrite try_block_spec in H. world_simpl. apply outcome_raises in H.
    rewrite loop_body_spec. world_simpl. unfold next_step. rewrite H.
    reflexivity.
  - subst w2. rewrite try_block_spec in *. world_simpl.
    apply outcome_raises in H.
    rewrite loop_body_spec. world_simpl. unfold pass_events, handler_events.
    rewrite H, <- !app_assoc. reflexivity.
  - subst w2. rewrite try_block_spec, loop_body_spec. reflexivity.
  - apply Hnext. rewrite try_block_spec in H. world_simpl.
    apply outcome_raises in H. unfold next_step. rewrite H. reflexivity.
  - apply loop_body_Break.
  - apply loop_body_Break.
  - intros its. apply stopped_by_interrupt.
Qed.

(** ** The order of the log *)

Lemma time_le_refl (t : struct_time) : time_le t t.
Proof. unfold time_le, time_fields. simpl. intuition auto. Qed.

Lemma time_le_trans (t1 t2 t3 : struct_time) :
  time_le t1 t2 -> time_le t2 t3 -> time_le t1 t3.
Proof. unfold time_le, time_fields. simpl. lia. Qed.

Lemma written_prefix (qr_codes : list string) :
  forall answers : list (option exn),
    firstn (length (written qr_codes answers)) qr_codes =
    written qr_codes answers.
Proof.
  induction qr_codes as [|q rest IH]; intros answers; simpl; auto.
  destruct (hd None answers); simpl; auto.
  rewrite IH. reflexivity.
Qed.

Lemma logged_prefix (it : iteration) :
  firstn (length (logged it)) (payloads it) = logged it.
Proof. unfold logged. apply written_prefix. Qed.

Lemma executed_app (its1 its2 : list iteration) :
  executed (its1 ++ its2) =
  (executed its1 ++ if forallb continues its1 then executed its2 else [])%list.
Proof.
  induction its1 as [|it rest IH]; simpl; auto.
  unfold continues at 1. destruct (next_step it); simpl.
  - rewrite IH. reflexivity.
  - reflexivity.
Qed.

Lemma length_executed (its : list iteration) :
  length (executed its) <= length its.
Proof.
  induction its as [|it rest IH]; simpl; auto.
  destruct (next_step it); simpl; lia.
Qed.

(** The counts of the payloads logged, pass by pass. *)
Lemma combine_executed (its : list iteration) :
  combine its (map (fun it => length (logged it)) (executed its)) =
  map (fun it => (it, length (logged it))) (executed its).
Proof.
  induction its as [|it rest IH]; simpl; auto.
  destruct (next_step it); simpl.
  - rewrite IH. reflexivity.
  - destruct rest; reflexivity.
Qed.

Lemma stamped_executed (its : list iteration) :
  stamped its (map (fun it => length (logged it)) (executed its)) =
  flat_map (fun it => map (pair (on_gmtime it)) (logged it)) (executed its).
Proof.
  unfold stamped. rewrite combine_executed.
  induction (executed its) as [|it rest IH]; simpl; auto.
  rewrite IH, logged_prefix. reflexivity.
Qed.

Lemma stamp_logged (l : list iteration) :
  map stamp (flat_map (fun it => map (pair (on_gmtime it)) (logged it)) l) =
  flat_map entries l.
Proof.
  induction l as [|it rest IH]; simpl; auto.
  rewrite map_app, IH, map_map. reflexivity.
Qed.

Lemma sorted_prefix (l1 l2 : list struct_time) :
  StronglySorted time_le (l1 ++ l2) -> StronglySorted time_le l1.
Proof.
  induction l1 as [|t l1 IH]; simpl; intros H.
  - constructor.
  - inversion H as [|t' l' Hs Hf]; subst. constructor.
    + apply IH, Hs.
    + apply Forall_app in Hf. apply Hf.
Qed.

(** Entries stamped pass by pass are in the order of the clock. *)
Lemma sorted_stamps (f : iteration -> list string) (l : list iteration) :
  StronglySorted time_le (map on_gmtime l) ->
  StronglySorted time_le
    (map fst (flat_map (fun it => map (pair (on_gmtime it)) (f it)) l)).
Proof.
  induction l as [|it rest IH]; simpl; intros H.
  - constructor.
  - inversion H as [|t' l' Hs Hf]; subst.
    specialize (IH Hs). rewrite map_app, map_map. simpl.
    induction (f it) as [|p ps IHp]; simpl; auto.
    constructor; auto.
    apply Forall_app. split.
    + apply Forall_forall. intros t Ht. apply in_map_iff in Ht.
      destruct Ht as (p' & <- & _). apply time_le_refl.
    + apply Forall_forall. intros t Ht. apply in_map_iff in Ht.
      destruct Ht as ([t' p'] & <- & Hin). simpl.
      apply in_flat_map in Hin. destruct Hin as (it' & Hit' & Hin).
      apply in_map_iff in Hin. destruct Hin as (p'' & E & _).
      injection E as <- _.
      rewrite Forall_forall in Hf. apply Hf, in_map, Hit'.
Qed.

Lemma executed_prefix (its : list iteration) :
  exists rest, its = (executed its ++ rest)%list.
Proof.
  induction its as [|it its IH]; simpl.
  - exists []. reflexivity.
  - destruct (next_step it).
    + destruct IH as [rest E]. exists rest. simpl. congruence.
    + exists its. reflexivity.
Qed.

(** C4.  Throughout a run the log file only grows: at every point between
    two passes it is the initial content followed by what was appended so
    far, and the final content extends it.  What a run appends is, pass
    by pass and in the order of the passes, one line for each of the
    first payloads decoded in the pass, stamped with the clock reading of
    that pass, and there is one write per such line; when the clock
    readings do not decrease from pass to pass, neither do the times of
    the entries. *)
Theorem log_grows_in_pass_order
  (its : list iteration) (url : string) (w : world) :
  let w' := snd (log_laps its qr_log_file url w) in
  (forall its1 its2,
      its = (its1 ++ its2)%list ->
      exists s1 s2,
        log_file (snd (log_laps its1 qr_log_file url w)) = log_file w ++ s1 /\
        log_file w' = log_file (snd (log_laps its1 qr_log_file url w)) ++ s2) /\
  exists counts,
    length counts <= length its /\
    log_file w' = log_file w ++ render (map stamp (stamped its counts)) /\
    count_writes (trace w') =
    count_writes (trace w) + length (stamped its counts) /\
    (Sorted time_le (map on_gmtime its) ->
     StronglySorted time_le (map fst (stamped its counts))).
Proof.
  intros w'. subst w'. split.
  - intros its1 its2 ->. rewrite !log_laps_spec. unfold run_world.
    world_simpl. rewrite executed_app, flat_map_app, render_app.
    eexists. eexists. split; [reflexivity|].
    rewrite append_assoc. reflexivity.
  - exists (map (fun it => length (logged it)) (executed its)).
    rewrite log_laps_spec. unfold run_world. world_simpl.
    rewrite stamped_executed, stamp_logged. repeat split.
    + rewrite length_map. apply length_executed.
    + rewrite count_writes_app, count_writes_run_events.
      rewrite <- stamp_logged, length_map. reflexivity.
    + intros Hs. apply sorted_stamps.
      apply Sorted_StronglySorted in Hs.
      * destruct (executed_prefix its) as [rest E].
        rewrite E, map_app in Hs. apply sorted_prefix in Hs. exact Hs.
      * intros t1 t2 t3. apply time_le_trans.
Qed.

(** ** The lines of a pass *)

Lemma writes_of_lap_events (current_time : string) (qr_codes : list string) :
  filter is_write (lap_events current_time qr_codes) =
  map (fun p => ev_write (log_line current_time p)) qr_codes.
Proof.
  induction qr_codes as [|q rest IH]; simpl; auto.
  rewrite IH. reflexivity.
Qed.

Lemma writes_of_pass_events (url : string) (cap : nat) (it : iteration) :
  filter is_write (pass_events url cap it) =
  map (fun p => ev_write (log_line (timestamp it) p)) (logged it).
Proof.
  unfold pass_events. rewrite !filter_app, writes_of_lap_events.
  assert (H1 : filter is_write (capture_events url cap it) = []).
  { unfold capture_events. destruct (on_read it) as [[r fr]|e]; reflexivity. }
  assert (H2 : filter is_write (sleep_events it) = []).
  { unfold sleep_events.
    destruct (raised_before_sleep it), (on_sleep it); reflexivity. }
  assert (H3 : filter is_write (handler_events it) = []).
  { unfold handler_events. destruct (raised it) as [[|msg]|]; reflexivity. }
  rewrite H1, H2, H3, app_nil_r. reflexivity.
Qed.

(** C5.  The writes of a pass are, for the first payloads decoded in it,
    the lines made of the timestamp, a comma and a space, the payload and
    a newline, and they are what the pass appends to the file; the
    timestamp is the clock reading of the pass in the shape
    [YYYY-MM-DD HH:MM:SS]; a frame decoding to [LAP:1] at 2024-01-01
    00:00:00 gives the line [2024-01-01 00:00:00, LAP:1]; and a run keeps
    the content the file had before it. *)
Theorem log_entry_format (it : iteration) (url : string) (w : world) :
  let w' := snd (loop_body it url w) in
  let current_time := strftime "%Y-%m-%d %H:%M:%S" (on_gmtime it) in
  (exists ps,
      ps = firstn (length ps) (payloads it) /\
      filter is_write (trace w') =
      (filter is_write (trace w)
         ++ map
              (fun p => ev_write (current_time ++ ", " ++ p ++ newline)%string)
              ps)%list /\
      log_file w' =
      log_file w
        ++ join (map (fun p => current_time ++ ", " ++ p ++ newline) ps)) /\
  (valid_time (on_gmtime it) ->
   current_time = YYYY_MM_DD_HH_MM_SS (on_gmtime it)) /\
  log_file (snd (log_laps [sees ["LAP:1"] new_year_2024] demo_log demo_url w)) =
  log_file w ++ "2024-01-01 00:00:00, LAP:1" ++ newline /\
  (forall its,
      exists appended,
        log_file (snd (log_laps its qr_log_file url w)) =
        log_file w ++ appended).
Proof.
  intros w' current_time. subst w' current_time. repeat split.
  - exists (logged it). rewrite loop_body_spec. world_simpl.
    rewrite filter_app, writes_of_pass_events, render_entries.
    rewrite logged_prefix. auto.
  - apply strftime_shape.
  - intros its. rewrite log_laps_spec. unfold run_world. world_simpl.
    eexists. reflexivity.
Qed.

(** ** Reading the log of a run back *)

Lemma logged_payloads (it : iteration) (p : string) :
  In p (logged it) -> In p (payloads it).
Proof.
  unfold logged. generalize (on_write it).
  induction (payloads it) as [|q rest IH]; simpl; intros answers H; auto.
  destruct (hd None answers); simpl in H; [contradiction|].
  destruct H as [H|H]; eauto.
Qed.

Lemma executed_In (its : list iteration) (it : iteration) :
  In it (executed its) -> In it its.
Proof.
  destruct (executed_prefix its) as [rest E]. intros H.
  rewrite E. apply in_or_app. auto.
Qed.

Lemma entries_ok (its : list iteration) :
  (forall it p, In it its -> In p (payloads it) -> no_newline p = true) ->
  forallb entry_ok (flat_map entries (executed its)) = true.
Proof.
  intros H. apply forallb_forall. intros [ts p] He.
  apply in_flat_map in He. destruct He as (it & Hit & He).
  unfold entries in He. apply in_map_iff in He.
  destruct He as (p' & E & Hp). injection E as <- <-.
  unfold entry_ok, timestamp. cbn [fst snd].
  destruct (timestamp_ok (on_gmtime it)) as [H1 H2].
  rewrite H1, H2. cbn [andb].
  apply (H it); [apply executed_In, Hit|apply logged_payloads, Hp].
Qed.

Lemma writes_of_run_events (url : string) (its : list iteration) :
  forall cap : nat,
    filter is_write (run_events url cap its) =
    map (fun e => ev_write (log_line (fst e) (snd e))) (flat_map entries its).
Proof.
  induction its as [|it rest IH]; intros cap; cbn [run_events flat_map].
  - reflexivity.
  - rewrite filter_app, writes_of_pass_events, IH, map_app.
    unfold entries at 2. rewrite map_map. reflexivity.
Qed.

(** C6, as amended.  When no payload decoded in the run contains a
    newline, the (timestamp, payload) pairs the run writes read back: the
    text they make parses to exactly these pairs, in order, and when the
    file parsed to [old] before the run it parses to [old] followed by
    them after it. *)
Theorem log_without_newlines_reads_back
  (its : list iteration) (url : string) (w : world) :
  (forall it p, In it its -> In p (payloads it) -> no_newline p = true) ->
  let w' := snd (log_laps its qr_log_file url w) in
  exists es,
    filter is_write (trace w') =
    (filter is_write (trace w)
       ++ map (fun e => ev_write (fst e ++ ", " ++ snd e ++ newline)%string)
            es)%list /\
    log_file w' = log_file w ++ render es /\
    parse_log (render es) = Some es /\
    (forall old,
        parse_log (log_file w) = Some old ->
        parse_log (log_file w') = Some (old ++ es)%list).
Proof.
  intros H w'. subst w'. exists (flat_map entries (executed its)).
  rewrite log_laps_spec. unfold run_world. world_simpl.
  pose proof (entries_ok its H) as Hok.
  repeat split.
  - rewrite filter_app, writes_of_run_events. reflexivity.
  - apply parse_log_render, Hok.
  - intros old Hold. apply parse_log_append; assumption.
Qed.

(** ** The lines of a run *)

Lemma lines_of_payloads (its : list iteration) :
  render (flat_map (fun it => map (pair (timestamp it)) (payloads it)) its) =
  join
    (flat_map
       (fun it =>
          map (fun p =>
                 strftime "%Y-%m-%d %H:%M:%S" (on_gmtime it)
                   ++ ", " ++ p ++ newline)
            (payloads it))
       its).
Proof.
  unfold render.
  induction its as [|it rest IH]; cbn [flat_map map join].
  - reflexivity.
  - rewrite !map_app, !join_app, IH, map_map. reflexivity.
Qed.

(** C1, as amended.  In a run whose passes are capture failures or
    captured frames with their decoded payloads, the writes made to the
    log file are as many as the payloads decoded from the captured frames,
    and the text appended is, payload by payload, the timestamp, a comma
    and a space, the payload and a newline.  When no payload contains a
    newline, the lines of the file grow by that same number. *)
Theorem file_lines_equal_payloads_decoded
  (its : list iteration) (url : string) (w : world) :
  Forall plain its ->
  let w' := snd (log_laps its qr_log_file url w) in
  count_writes (trace w') = count_writes (trace w) + total_payloads its /\
  log_file w' =
  log_file w
    ++ join
         (flat_map
            (fun it =>
               map (fun p =>
                      strftime "%Y-%m-%d %H:%M:%S" (on_gmtime it)
                        ++ ", " ++ p ++ newline)
                 (payloads it))
            its) /\
  ((forall it p, In it its -> In p (payloads it) -> no_newline p = true) ->
   count_lines (log_file w') = count_lines (log_file w) + total_payloads its /\
   length (split_on LF (log_file w')) =
   length (split_on LF (log_file w)) + total_payloads its).
Proof.
  intros Hplain w'. subst w'.
  rewrite log_laps_spec. unfold run_world. world_simpl.
  split; [|split].
  - rewrite (executed_plain its Hplain), count_writes_app,
      count_writes_run_events, (flat_map_entries_plain its Hplain),
      length_stamped_payloads.
    reflexivity.
  - rewrite (executed_plain its Hplain), (flat_map_entries_plain its Hplain),
      lines_of_payloads.
    reflexivity.
  - intros Hnl. pose proof (entries_ok its Hnl) as Hok.
    assert (E : count_lines
                  (log_file w ++ render (flat_map entries (executed its))) =
                count_lines (log_file w) + total_payloads its).
    { rewrite count_lines_app, (count_lines_render _ Hok),
        (executed_plain its Hplain), (flat_map_entries_plain its Hplain),
        length_stamped_payloads.
      reflexivity. }
    split; [exact E|].
    rewrite !length_split_on, E. reflexivity.
Qed.

(** ** Cancellation *)

Lemma log_laps_while_True (its : list iteration) (url : string) (w : world) :
  log_laps its qr_log_file url w = while_True its url w.
Proof. reflexivity. Qed.

(** C7.  When the [try] block of a pass reached while polling raises
    [KeyboardInterrupt], the run stops there whatever answers follow:
    the world it ends in is the world at the interrupt with the stop
    message printed, so that no later pass starts and nothing is captured,
    decoded or written after it, and the log file is the initial content
    followed by what the earlier passes and this pass had written. *)
Theorem cancellation_stops_the_run
  (pre : list iteration) (it : iteration) (post : list iteration)
  (url : string) (w : world) :
  fst (log_laps pre qr_log_file url w) = Return Polling ->
  fst (try_block it url (snd (log_laps pre qr_log_file url w))) =
  Raise KeyboardInterrupt ->
  let w1 := snd (log_laps pre qr_log_file url w) in
  let w2 := snd (try_block it url w1) in
  log_laps (pre ++ it :: post) qr_log_file url w =
  (Return Stopped, emit (ev_print "Logging stopped.") w2) /\
  filter is_activity
    (trace (snd (log_laps (pre ++ it :: post) qr_log_file url w))) =
  filter is_activity (trace w2) /\
  exists s1 s2,
    log_file w1 = log_file w ++ s1 /\
    log_file w2 = log_file w1 ++ s2 /\
    log_file (snd (log_laps (pre ++ it :: post) qr_log_file url w)) =
    log_file w ++ s1 ++ s2.
Proof.
  intros Hpre Hint w1 w2.
  assert (Hrun : log_laps (pre ++ it :: post) qr_log_file url w =
                 (Return Stopped, emit (ev_print "Logging stopped.") w2)).
  { rewrite log_laps_while_True in *.
    rewrite (while_True_app url pre (it :: post) w Hpre).
    change (snd (while_True pre url w)) with w1 in *.
    cbn [while_True]. unfold bind, loop_body, try_except, bind.
    subst w2. destruct (try_block it url w1) as [[u|e] w2]; simpl in Hint.
    - discriminate.
    - injection Hint as ->. reflexivity. }
  split; [exact Hrun|].
  rewrite Hrun. split.
  { cbn [snd emit trace]. rewrite filter_app. apply app_nil_r. }
  subst w2. subst w1.
  rewrite try_block_spec, log_laps_spec. unfold run_world. world_simpl.
  eexists. eexists. repeat split. apply append_assoc.
Qed.

(** ** The capture handle *)

Lemma run_caps_released (its : list iteration) :
  forall (cap : nat) (opened : list nat),
    reads_answer its -> run_caps cap its opened = opened.
Proof.
  induction its as [|it rest IH]; intros cap opened H; cbn [run_caps]; auto.
  inversion H as [|it' rest' (r & fr & Hr) Hrest]; subst.
  unfold pass_caps. rewrite Hr. apply IH, Hrest.
Qed.

(** C9, as amended.  A call of [capture_frame] whose [cap.read()] answers,
    with a frame or without one, opens a handle that was not open before,
    reads from it and releases it before it returns the frame or raises
    the capture error: the handles open after the call are those open
    before it.  No handle stays open across the passes of a run whose
    reads answer. *)
Theorem capture_releases_its_handle
  (r : bool) (fr : frame) (url : string) (w : world) :
  caps_wf w ->
  let cap := caps_next w in
  let res := capture_frame (Return (r, fr)) url w in
  ~ In cap (caps_open w) /\
  trace (snd res) =
  (trace w ++ [ev_VideoCapture url cap; ev_read cap r; ev_release cap])%list /\
  caps_open (snd res) = caps_open w /\
  caps_wf (snd res) /\
  fst res =
  (if r then Return fr
   else Raise (Exception "Failed to capture frame from ESP32-CAM")) /\
  (forall its,
      reads_answer its ->
      caps_open (snd (log_laps its qr_log_file url w)) = caps_open w).
Proof.
  intros Hwf cap res. subst cap res.
  unfold capture_frame, bind, VideoCapture, cap_read, cap_release, emit,
    ret, raise.
  cbn [fst snd log_file caps_open caps_next trace remove_first].
  rewrite Nat.eqb_refl.
  repeat split.
  - intros Hin. unfold caps_wf in Hwf. rewrite Forall_forall in Hwf.
    specialize (Hwf _ Hin). lia.
  - destruct r; cbn [fst snd negb trace]; rewrite <- !app_assoc; reflexivity.
  - destruct r; reflexivity.
  - unfold caps_wf in *. destruct r; cbn [fst snd negb caps_open caps_next];
      (eapply Forall_impl; [|exact Hwf]); cbn beta; intros; lia.
  - destruct r; reflexivity.
  - intros its Hits. rewrite log_laps_spec. unfold run_world. world_simpl.
    destruct (executed_prefix its) as [rest E].
    apply run_caps_released. unfold reads_answer in *.
    rewrite E in Hits. apply Forall_app in Hits. apply Hits.
Qed.

End Passes.

(** ** Empty results and empty payloads *)

Lemma In_lap_events (current_time : string) (qr_codes : list string)
  (p : string) :
  In p qr_codes ->
  In (ev_write (log_line current_time p)) (lap_events current_time qr_codes).
Proof.
  intros H. unfold lap_events. apply in_flat_map. exists p. simpl. auto.
Qed.

Lemma seen_payloads {L : Libraries} (it : iteration) (fr : frame)
  (qr_codes : list string) :
  on_read it = Return (true, fr) -> scan_qr_code fr = Return qr_codes ->
  payloads it = qr_codes.
Proof.
  intros Hr Hs. unfold payloads, captured. rewrite Hr, Hs. reflexivity.
Qed.

(** C8.  A pass whose frame decodes to the empty sequence writes nothing:
    the log file and the writes of the trace are as before.  In a run of
    three passes that decode to [A], to nothing and to [B] and [C],
    exactly three lines are written, in the order A, B, C; A carries the
    timestamp of the first pass, B and C that of the third. *)
Theorem empty_decode_writes_nothing
  {L : Libraries} (it : iteration) (fr : frame) (url : string) (w : world) :
  on_read it = Return (true, fr) ->
  scan_qr_code fr = Return [] ->
  (log_file (snd (loop_body it url w)) = log_file w /\
   filter is_write (trace (snd (loop_body it url w))) =
   filter is_write (trace w)) /\
  forall t1 t2 t3 w0,
    let run :=
      snd (log_laps [sees ["A"] t1; sees [] t2; sees ["B"; "C"] t3]
             demo_log demo_url w0) in
    let stamp_of := strftime "%Y-%m-%d %H:%M:%S" in
    filter is_write (trace run) =
    (filter is_write (trace w0)
       ++ [ev_write (stamp_of t1 ++ ", A" ++ newline)%string;
           ev_write (stamp_of t3 ++ ", B" ++ newline)%string;
           ev_write (stamp_of t3 ++ ", C" ++ newline)%string])%list /\
    log_file run =
    log_file w0 ++ (stamp_of t1 ++ ", A" ++ newline)
      ++ (stamp_of t3 ++ ", B" ++ newline)
      ++ (stamp_of t3 ++ ", C" ++ newline).
Proof.
  intros Hr Hs. split.
  - rewrite loop_body_spec. world_simpl.
    rewrite filter_app, writes_of_pass_events, render_entries.
    unfold logged. rewrite (seen_payloads it fr [] Hr Hs). simpl.
    rewrite append_nil_r, app_nil_r. auto.
  - intros t1 t2 t3 w0 run stamp_of. subst run stamp_of.
    rewrite log_laps_spec. unfold run_world. world_simpl.
    rewrite filter_app, writes_of_run_events. split.
    + reflexivity.
    + unfold render. cbn. rewrite !append_nil_r. reflexivity.
Qed.

(** C10.  When the payloads decoded from the captured frame include the
    empty string and the writes succeed, the pass writes one line per
    payload, and among them the line made of the timestamp, the comma and
    the space, and the newline; the guard of the pass looks at the list of
    payloads, not at their text. *)
Theorem empty_payload_is_logged
  {L : Libraries} (it : iteration) (fr : frame) (qr_codes : list string)
  (url : string) (w : world) :
  on_read it = Return (true, fr) ->
  scan_qr_code fr = Return qr_codes ->
  In EmptyString qr_codes ->
  Forall (fun answer => answer = None) (on_write it) ->
  let w' := snd (loop_body it url w) in
  let line := strftime "%Y-%m-%d %H:%M:%S" (on_gmtime it) ++ ", " ++ newline in
  In (ev_write line) (trace w') /\
  count_writes (trace w') = count_writes (trace w) + length qr_codes /\
  (exists before after, log_file w' = log_file w ++ before ++ line ++ after) /\
  (forall t w0,
      log_file (snd (log_laps [sees [EmptyString] t] demo_log demo_url w0)) =
      log_file w0 ++ strftime "%Y-%m-%d %H:%M:%S" t ++ ", " ++ newline).
Proof.
  intros Hr Hs Hin Hw w' line. subst w' line.
  rewrite loop_body_spec. world_simpl.
  assert (Hl : logged it = qr_codes).
  { unfold logged. rewrite (seen_payloads it fr qr_codes Hr Hs).
    apply written_all, Hw. }
  split; [|split; [|split]].
  - apply in_or_app. right. unfold pass_events.
    apply in_or_app. right. apply in_or_app. left.
    rewrite Hl. apply (In_lap_events (timestamp it) qr_codes EmptyString Hin).
  - rewrite count_writes_app, count_writes_pass_events, Hl. reflexivity.
  - rewrite render_entries, Hl.
    destruct (in_split _ _ Hin) as (l1 & l2 & ->).
    rewrite map_app, join_app. cbn [map join].
    eexists. eexists. reflexivity.
  - intros t w0. rewrite log_laps_spec. unfold run_world. world_simpl.
    unfold render. cbn. rewrite !append_nil_r. reflexivity.
Qed.

(** ** The properties on concrete runs *)

Lemma demo_scan_objects (codes : list bytes) :
  forall qr_data : list string,
    @scan_objects demo (map mkDecoded codes) qr_data =
    Return (qr_data ++ codes)%list.
Proof.
  induction codes as [|c codes IH]; intros qr_data; simpl.
  - rewrite app_nil_r. reflexivity.
  - rewrite IH, <- app_assoc. reflexivity.
Qed.

Lemma demo_scan_qr_code (codes : list bytes) :
  @scan_qr_code demo codes = Return codes.
Proof. unfold scan_qr_code. simpl. apply demo_scan_objects. Qed.

Lemma plain_sees (codes : list bytes) (t : struct_time) : plain (sees codes t).
Proof.
  unfold plain. split; [|split; [|split]].
  - exists true, codes. reflexivity.
  - intros fr H. injection H as <-. exists codes. apply demo_scan_qr_code.
  - constructor.
  - reflexivity.
Qed.

Lemma plain_no_frame (t : struct_time) : plain (no_frame t).
Proof.
  unfold plain. split; [|split; [|split]].
  - exists false, []. reflexivity.
  - intros fr H. discriminate H.
  - constructor.
  - reflexivity.
Qed.

(** C1 fails as stated: one payload of two lines is decoded and written by
    one write, and the file has two lines more. *)
Lemma newline_payload_makes_two_lines :
  Forall plain [sees ["A" ++ newline ++ "B"] new_year_2024] /\
  total_payloads [sees ["A" ++ newline ++ "B"] new_year_2024] = 1 /\
  count_writes
    (trace (snd (log_laps [sees ["A" ++ newline ++ "B"] new_year_2024]
                   demo_log demo_url world0))) = 1 /\
  count_lines
    (log_file (snd (log_laps [sees ["A" ++ newline ++ "B"] new_year_2024]
                      demo_log demo_url world0))) = 2 /\
  split_on LF
    (log_file (snd (log_laps [sees ["A" ++ newline ++ "B"] new_year_2024]
                      demo_log demo_url world0))) =
  ["2024-01-01 00:00:00, A"; "B"; EmptyString].
Proof.
  split; [constructor; [apply plain_sees|constructor]|].
  split; [|split; [|split]]; reflexivity.
Qed.

(** On the four passes: three payloads, three writes, three lines. *)
Lemma file_lines_equal_payloads_decoded_witness :
  Forall plain four_passes /\
  (forall it p,
      In it four_passes -> In p (payloads it) -> no_newline p = true) /\
  count_writes (trace (snd (log_laps four_passes demo_log demo_url world0)))
  = 3 /\
  count_lines (log_file (snd (log_laps four_passes demo_log demo_url world0)))
  = 3.
Proof.
  assert (H : Forall plain four_passes).
  { constructor; [apply plain_no_frame|].
    constructor; [apply plain_sees|].
    constructor; [apply plain_sees|].
    constructor; [apply plain_sees|constructor]. }
  assert (Hnl : forall it p,
             In it four_passes -> In p (payloads it) -> no_newline p = true).
  { intros it p Hit Hp. simpl in Hit.
    destruct Hit as [<-|[<-|[<-|[<-|[]]]]]; vm_compute in Hp;
      repeat (destruct Hp as [<-|Hp]; [reflexivity|]); destruct Hp. }
  split; [exact H|]. split; [exact Hnl|].
  destruct (file_lines_equal_payloads_decoded demo_log four_passes demo_url
              world0 H) as (H1 & _ & H3).
  destruct (H3 Hnl) as [H4 _].
  split; [rewrite H1|rewrite H4]; reflexivity.
Defined.

(** C9 fails as stated: when [cap.read()] raises, the call raises with its
    handle open and unreleased, and the loop goes on to the next capture
    with that handle still open. *)
Lemma raising_read_keeps_the_connection :
  fst (@capture_frame demo (Raise (Exception "read failed")) demo_url world0)
  = Raise (Exception "read failed") /\
  caps_open
    (snd (@capture_frame demo (Raise (Exception "read failed")) demo_url
            world0)) = [0] /\
  trace
    (snd (@capture_frame demo (Raise (Exception "read failed")) demo_url
            world0)) = [ev_VideoCapture demo_url 0] /\
  fst (log_laps [read_fails new_year_2024 (Exception "read failed");
                 sees ["A"] year_end_2024] demo_log demo_url world0)
  = Return Polling /\
  caps_open
    (snd (log_laps [read_fails new_year_2024 (Exception "read failed");
                    sees ["A"] year_end_2024] demo_log demo_url world0))
  = [0].
Proof. split; [|split; [|split; [|split]]]; reflexivity. Qed.

(** C2 fails as stated: a pass whose capture obtains no frame goes on to
    the next pass without any sleep; the second capture follows the error
    message at once. *)
Lemma sleep_skipped_after_capture_failure :
  fst (loop_body (no_frame new_year_2024) demo_url world0) = Return Continue /\
  count_sleeps
    (trace (snd (loop_body (no_frame new_year_2024) demo_url world0))) = 0 /\
  trace (snd (log_laps [no_frame new_year_2024; sees [] new_year_2024]
                demo_log demo_url world0)) =
  [ev_VideoCapture demo_url 0; ev_read 0 false; ev_release 0;
   ev_print "Error: Failed to capture frame from ESP32-CAM";
   ev_VideoCapture demo_url 1; ev_read 1 true; ev_release 1; ev_sleep 1].
Proof. split; [|split]; reflexivity. Qed.

(** A lap, a capture failure, a lap: the third pass runs. *)
Lemma errors_are_reported_and_polling_continues_witness :
  fst (while_True [sees ["A"] new_year_2024] demo_url world0)
  = Return Polling /\
  fst (capture_frame (on_read (no_frame new_year_2024)) demo_url
         (snd (while_True [sees ["A"] new_year_2024] demo_url world0)))
  = Raise (Exception "Failed to capture frame from ESP32-CAM") /\
  while_True
    ([sees ["A"] new_year_2024]
       ++ no_frame new_year_2024 :: [sees ["B"] year_end_2024])
    demo_url world0 =
  while_True [sees ["B"] year_end_2024] demo_url
    (snd (loop_body (no_frame new_year_2024) demo_url
            (snd (while_True [sees ["A"] new_year_2024] demo_url world0)))).
Proof.
  assert (Hpre : fst (while_True [sees ["A"] new_year_2024] demo_url world0)
                 = Return Polling) by reflexivity.
  split; [exact Hpre|]. split; [reflexivity|].
  destruct (errors_are_reported_and_polling_continues
              [sees ["A"] new_year_2024] (no_frame new_year_2024)
              [sees ["B"] year_end_2024] demo_url world0 Hpre) as [H1 _].
  destruct (H1 "Failed to capture frame from ESP32-CAM" eq_refl)
    as (_ & _ & _ & Hnext).
  exact Hnext.
Defined.

(** The four passes read a clock that does not go back. *)
Lemma log_grows_in_pass_order_witness :
  Sorted time_le (map on_gmtime four_passes) /\
  exists counts,
    log_file (snd (log_laps four_passes demo_log demo_url world0)) =
    log_file world0 ++ render (map stamp (stamped four_passes counts)) /\
    StronglySorted time_le (map fst (stamped four_passes counts)).
Proof.
  assert (Hs : Sorted time_le (map on_gmtime four_passes)).
  { repeat first [apply Sorted_cons | apply Sorted_nil
                 | apply HdRel_cons | apply HdRel_nil];
      unfold time_le, time_fields, lex_le;
      cbn [tm_year tm_mon tm_mday tm_hour tm_min tm_sec on_gmtime sees
             no_frame new_year_2024 year_end_2024];
      lia. }
  split; [exact Hs|].
  destruct (log_grows_in_pass_order demo_log four_passes demo_url world0)
    as [_ (counts & _ & Hf & _ & Hsorted)].
  exists counts. split; [exact Hf|exact (Hsorted Hs)].
Defined.

(** The first second of 2024 in the shape of the timestamp. *)
Lemma log_entry_format_witness :
  valid_time new_year_2024 /\
  strftime "%Y-%m-%d %H:%M:%S" new_year_2024 =
  YYYY_MM_DD_HH_MM_SS new_year_2024.
Proof.
  assert (Hv : valid_time new_year_2024).
  { unfold valid_time, new_year_2024.
    cbn [tm_year tm_mon tm_mday tm_hour tm_min tm_sec]. lia. }
  split; [exact Hv|].
  destruct (log_entry_format demo_log (sees ["LAP:1"] new_year_2024) demo_url
              world0)
    as (_ & H & _).
  exact (H Hv).
Defined.

(** C6 fails as stated: a payload with a newline is written as it is; the
    one entry written reads back as two, and the file is the very file
    that two entries make. *)
Lemma newline_payload_does_not_read_back :
  filter is_write
    (trace (snd (log_laps [sees [two_line_payload] new_year_2024]
                   demo_log demo_url world0))) =
  [ev_write ("2024-01-01 00:00:00" ++ ", " ++ two_line_payload ++ newline)] /\
  parse_log
    (log_file (snd (log_laps [sees [two_line_payload] new_year_2024]
                      demo_log demo_url world0))) =
  Some [("2024-01-01 00:00:00", "A"); ("2024-01-01 00:00:00", "B")] /\
  parse_log
    (log_file (snd (log_laps [sees [two_line_payload] new_year_2024]
                      demo_log demo_url world0))) <>
  Some [("2024-01-01 00:00:00", two_line_payload)] /\
  log_file (snd (log_laps [sees [two_line_payload] new_year_2024]
                   demo_log demo_url world0)) =
  log_file (snd (log_laps [sees ["A"; "B"] new_year_2024] demo_log demo_url
                   world0)).
Proof.
  split; [|split; [|split]]; try reflexivity.
  vm_compute. discriminate.
Qed.

(** The log of the four passes, written to an empty file, reads back. *)
Lemma log_without_newlines_reads_back_witness :
  (forall it p,
      In it four_passes -> In p (payloads it) -> no_newline p = true) /\
  exists es,
    log_file (snd (log_laps four_passes demo_log demo_url world0)) =
    render es /\
    parse_log (log_file (snd (log_laps four_passes demo_log demo_url world0))) =
    Some es.
Proof.
  assert (H : forall it p,
             In it four_passes -> In p (payloads it) -> no_newline p = true).
  { intros it p Hit Hp. simpl in Hit.
    destruct Hit as [<-|[<-|[<-|[<-|[]]]]]; vm_compute in Hp;
      repeat (destruct Hp as [<-|Hp]; [reflexivity|]); destruct Hp. }
  split; [exact H|].
  destruct (log_without_newlines_reads_back demo_log four_passes demo_url
              world0 H)
    as (es & _ & Hf & _ & Hp).
  exists es. split; [exact Hf|exact (Hp [] eq_refl)].
Defined.

(** An interrupt during the sleep of the second pass: the third does not
    run. *)
Lemma cancellation_stops_the_run_witness :
  fst (log_laps [sees ["A"] new_year_2024] demo_log demo_url world0)
  = Return Polling /\
  fst (try_block (interrupted ["B"] year_end_2024) demo_url
         (snd (log_laps [sees ["A"] new_year_2024] demo_log demo_url world0)))
  = Raise KeyboardInterrupt /\
  fst (log_laps
         ([sees ["A"] new_year_2024]
            ++ interrupted ["B"] year_end_2024 :: [sees ["C"] year_end_2024])
         demo_log demo_url world0) = Return Stopped.
Proof.
  split; [reflexivity|]. split; [reflexivity|].
  destruct (cancellation_stops_the_run demo_log
              [sees ["A"] new_year_2024] (interrupted ["B"] year_end_2024)
              [sees ["C"] year_end_2024] demo_url world0 eq_refl eq_refl)
    as [Hrun _].
  rewrite Hrun. reflexivity.
Defined.

(** A frame without codes leaves the file as it was. *)
Lemma empty_decode_writes_nothing_witness :
  on_read (sees [] new_year_2024) = Return (true, []) /\
  @scan_qr_code demo [] = Return [] /\
  log_file (snd (loop_body (sees [] new_year_2024) demo_url world0)) =
  log_file world0.
Proof.
  split; [reflexivity|]. split; [reflexivity|].
  destruct (empty_decode_writes_nothing
              (sees [] new_year_2024) [] demo_url world0 eq_refl eq_refl)
    as [[H _] _].
  exact H.
Defined.

(** A capture without a frame, from a world with no open handle. *)
Lemma capture_releases_its_handle_witness :
  caps_wf world0 /\
  caps_open (snd (@capture_frame demo (Return (false, [])) demo_url world0))
  = caps_open world0.
Proof.
  assert (Hwf : caps_wf world0) by constructor.
  split; [exact Hwf|].
  destruct (@capture_releases_its_handle demo demo_log false [] demo_url world0
              Hwf)
    as (_ & _ & H & _).
  exact H.
Defined.

(** Two payloads, the second one empty. *)
Lemma empty_payload_is_logged_witness :
  on_read (sees ["X"; EmptyString] new_year_2024)
  = Return (true, ["X"; EmptyString]) /\
  @scan_qr_code demo ["X"; EmptyString] = Return ["X"; EmptyString] /\
  In EmptyString ["X"; EmptyString] /\
  Forall (fun answer : option exn => answer = None)
    (on_write (sees ["X"; EmptyString] new_year_2024)) /\
  In (ev_write ("2024-01-01 00:00:00, " ++ newline))
    (trace (snd (loop_body (sees ["X"; EmptyString] new_year_2024)
                   demo_url world0))).
Proof.
  assert (Hin : In EmptyString ["X"; EmptyString])
    by (right; left; reflexivity).
  assert (Hw : Forall (fun answer : option exn => answer = None)
                 (on_write (sees ["X"; EmptyString] new_year_2024)))
    by constructor.
  split; [reflexivity|]. split; [reflexivity|].
  split; [exact Hin|]. split; [exact Hw|].
  destruct (empty_payload_is_logged
              (sees ["X"; EmptyString] new_year_2024) ["X"; EmptyString]
              ["X"; EmptyString] demo_url world0 eq_refl eq_refl Hin Hw)
    as [H _].
  exact H.
Defined.

(** * Further properties of the three functions *)

Section Functions.

Context {L : Libraries}.

(** ** [scan_qr_code] *)

Lemma scan_objects_returns (decoded_objects : list Decoded) :
  forall qr_data qr_codes : list string,
    scan_objects decoded_objects qr_data = Return qr_codes <->
    exists tail,
      qr_codes = (qr_data ++ tail)%list /\
      Forall2 decodes_to decoded_objects tail.
Proof.
  induction decoded_objects as [|obj rest IH]; intros qr_data qr_codes;
    cbn [scan_objects].
  - split.
    + intros H. injection H as <-. exists []. rewrite app_nil_r.
      split; [reflexivity|constructor].
    + intros (tail & -> & H). inversion H. rewrite app_nil_r. reflexivity.
  - destruct (decode_utf8 (data obj)) as [s|e] eqn:E.
    + rewrite IH. split.
      * intros (tail & -> & H). exists (s :: tail).
        rewrite <- app_assoc. split; [reflexivity|].
        constructor; [exact E|exact H].
      * intros (tail & -> & H).
        inversion H as [|obj' s' rest' tail' Hs Ht]; subst.
        unfold decodes_to in Hs. rewrite E in Hs. injection Hs as <-.
        exists tail'. rewrite <- app_assoc. split; [reflexivity|exact Ht].
    + split; [discriminate|].
      intros (tail & _ & H).
      inversion H as [|obj' s' rest' tail' Hs Ht]; subst.
      unfold decodes_to in Hs. rewrite E in Hs. discriminate Hs.
Qed.

Lemma scan_objects_raises (good : list Decoded) (decoded : list string) :
  Forall2 decodes_to good decoded ->
  forall (bad : Decoded) (rest : list Decoded) (e : exn)
         (qr_data : list string),
    decode_utf8 (data bad) = Raise e ->
    scan_objects (good ++ bad :: rest) qr_data = Raise e.
Proof.
  induction 1 as [|obj s good decoded Hs _ IH]; intros bad rest e qr_data Hb;
    simpl.
  - rewrite Hb. reflexivity.
  - unfold decodes_to in Hs. rewrite Hs. apply IH, Hb.
Qed.

(** X1.  [scan_qr_code] returns a list exactly when pyzbar returns its
    objects and the data of every object decodes; the list then holds the
    decoded text of each object, one for one and in pyzbar's order. *)
Theorem scan_qr_code_decodes_each_object
  (fr : frame) (qr_codes : list string) :
  scan_qr_code fr = Return qr_codes <->
  exists decoded_objects,
    decode fr = Return decoded_objects /\
    Forall2 decodes_to decoded_objects qr_codes.
Proof.
  unfold scan_qr_code. destruct (decode fr) as [objs|e].
  - rewrite scan_objects_returns. split.
    + intros (tail & -> & H). exists objs. auto.
    + intros (objs' & E & H). injection E as <-. exists qr_codes. auto.
  - split; [discriminate|]. intros (objs & E & _). discriminate E.
Qed.

(** X2.  When the data of an object does not decode, [scan_qr_code]
    raises the exception of the first such object and returns nothing,
    whatever the objects before it decoded to and whatever follows. *)
Theorem scan_qr_code_raises_at_first_undecodable
  (fr : frame) (good : list Decoded) (decoded : list string)
  (bad : Decoded) (rest : list Decoded) (e : exn) :
  decode fr = Return (good ++ bad :: rest)%list ->
  Forall2 decodes_to good decoded ->
  decode_utf8 (data bad) = Raise e ->
  scan_qr_code fr = Raise e.
Proof.
  intros Hd Hg Hb. unfold scan_qr_code. rewrite Hd.
  apply (scan_objects_raises good decoded Hg bad rest e [] Hb).
Qed.

(** ** Passes that fail after the capture *)

Lemma scan_raises_facts (it : iteration) (fr : frame) (e : exn) :
  on_read it = Return (true, fr) -> scan_qr_code fr = Raise e ->
  raised_before_sleep it = Some e /\ raised it = Some e /\ logged it = [].
Proof.
  intros Hr Hs.
  unfold raised, raised_before_sleep, logged, payloads, captured.
  rewrite Hr, Hs. auto.
Qed.

(** X3.  A pass whose frame holds a code that does not decode logs none
    of the codes of the frame: the file is as before, there is no write
    and no sleep, the error is printed last and the loop goes on. *)
Theorem undecodable_code_drops_the_frame
  (it : iteration) (fr : frame) (msg : string) (url : string) (w : world) :
  on_read it = Return (true, fr) ->
  scan_qr_code fr = Raise (Exception msg) ->
  let w' := snd (loop_body it url w) in
  fst (loop_body it url w) = Return Continue /\
  log_file w' = log_file w /\
  count_writes (trace w') = count_writes (trace w) /\
  count_sleeps (trace w') = count_sleeps (trace w) /\
  trace w' =
  (trace w
     ++ [ev_VideoCapture url (caps_next w); ev_read (caps_next w) true;
         ev_release (caps_next w); ev_print ("Error: " ++ msg)%string])%list.
Proof.
  intros Hr Hs w'. subst w'.
  destruct (scan_raises_facts it fr _ Hr Hs) as (E1 & E2 & E3).
  rewrite loop_body_spec. world_simpl.
  assert (Hev : pass_events url (caps_next w) it =
                [ev_VideoCapture url (caps_next w); ev_read (caps_next w) true;
                 ev_release (caps_next w); ev_print ("Error: " ++ msg)%string]).
  { unfold pass_events, capture_events, sleep_events, handler_events.
    rewrite Hr, E1, E2, E3. reflexivity. }
  rewrite Hev, render_entries, E3.
  split; [unfold next_step; rewrite E2; reflexivity|].
  split; [apply append_nil_r|].
  split; [rewrite count_writes_app; cbn; lia|].
  split; [rewrite count_sleeps_app; cbn; lia|reflexivity].
Qed.

Lemma written_until_fault (done : list string) (p : string)
  (rest : list string) (e : exn) (more : list (option exn)) :
  written (done ++ p :: rest)
    (repeat None (length done) ++ Some e :: more) = done /\
  write_fault (done ++ p :: rest)
    (repeat None (length done) ++ Some e :: more) = Some e.
Proof.
  induction done as [|q done [IH1 IH2]]; cbn; auto.
  rewrite IH1, IH2. auto.
Qed.

(** X4.  When a write raises an error in the middle of a frame, the lines
    written before it stay in the file, the payload of the failed write
    and those after it are not written, the error is printed, and the
    loop goes on without sleeping. *)
Theorem failed_write_keeps_earlier_lines
  (it : iteration) (fr : frame) (done : list string) (p : string)
  (rest : list string) (msg : string) (more : list (option exn))
  (url : string) (w : world) :
  on_read it = Return (true, fr) ->
  scan_qr_code fr = Return (done ++ p :: rest)%list ->
  on_write it =
  (repeat None (length done) ++ Some (Exception msg) :: more)%list ->
  let w' := snd (loop_body it url w) in
  let current_time := strftime "%Y-%m-%d %H:%M:%S" (on_gmtime it) in
  fst (loop_body it url w) = Return Continue /\
  log_file w' =
  log_file w
    ++ join (map (fun q => current_time ++ ", " ++ q ++ newline) done) /\
  count_writes (trace w') = count_writes (trace w) + length done /\
  count_sleeps (trace w') = count_sleeps (trace w) /\
  exists tr, trace w' = (tr ++ [ev_print ("Error: " ++ msg)%string])%list.
Proof.
  intros Hr Hs Hw w' current_time. subst w' current_time.
  destruct (written_until_fault done p rest (Exception msg) more) as [W1 W2].
  assert (El : logged it = done).
  { unfold logged. rewrite (seen_payloads it fr _ Hr Hs), Hw. exact W1. }
  assert (Eb : raised_before_sleep it = Some (Exception msg)).
  { unfold raised_before_sleep, captured. rewrite Hr, Hs, Hw. exact W2. }
  assert (Er : raised it = Some (Exception msg)).
  { unfold raised. rewrite Eb. reflexivity. }
  rewrite loop_body_spec. world_simpl.
  split; [unfold next_step; rewrite Er; reflexivity|].
  split; [rewrite render_entries, El; reflexivity|].
  split; [rewrite count_writes_app, count_writes_pass_events, El; reflexivity|].
  split.
  - unfold pass_events, sleep_events, handler_events.
    rewrite !count_sleeps_app, count_sleeps_capture_events,
      count_sleeps_lap_events, Eb, Er. cbn. lia.
  - unfold pass_events, handler_events. rewrite Er.
    eexists. rewrite !app_assoc. reflexivity.
Qed.

(** ** Capture handles over a run *)

Lemma polling_executed (its : list iteration) :
  run_status its = Polling -> executed its = its.
Proof.
  unfold run_status.
  induction its as [|it rest IH]; cbn [forallb executed]; auto.
  unfold continues at 1. destruct (next_step it); cbn [andb].
  - intros H. rewrite (IH H). reflexivity.
  - discriminate.
Qed.



Lemma opened_app (tr1 tr2 : list event) :
  opened (tr1 ++ tr2) = (opened tr1 ++ opened tr2)%list.
Proof. unfold opened. apply flat_map_app. Qed.

Lemma opened_lap_events (current_time : string) (qr_codes : list string) :
  opened (lap_events current_time qr_codes) = [].
Proof. induction qr_codes as [|q rest IH]; cbn; auto. Qed.

Lemma opened_pass_events (url : string) (cap : nat) (it : iteration) :
  opened (pass_events url cap it) = [(url, cap)].
Proof.
  unfold pass_events. rewrite !opened_app, opened_lap_events.
  assert (H1 : opened (capture_events url cap it) = [(url, cap)]).
  { unfold capture_events. destruct (on_read it) as [[r fr]|e]; reflexivity. }
  assert (H2 : opened (sleep_events it) = []).
  { unfold sleep_events.
    destruct (raised_before_sleep it), (on_sleep it); reflexivity. }
  assert (H3 : opened (handler_events it) = []).
  { unfold handler_events. destruct (raised it) as [[|msg]|]; reflexivity. }
  rewrite H1, H2, H3. reflexivity.
Qed.

Lemma opened_run_events (url : string) (its : list iteration) :
  forall cap : nat,
    opened (run_events url cap its) = map (pair url) (seq cap (length its)).
Proof.
  induction its as [|it rest IH]; intros cap; cbn [run_events length seq map].
  - reflexivity.
  - rewrite opened_app, opened_pass_events, IH. reflexivity.
Qed.

Lemma run_caps_below (its : list iteration) :
  forall (cap : nat) (opened_before : list nat),
    Forall (fun c => c < cap) opened_before ->
    Forall (fun c => c < cap + length its) (run_caps cap its opened_before).
Proof.
  induction its as [|it rest IH]; intros cap opened_before H;
    cbn [run_caps length].
  - rewrite Nat.add_0_r. exact H.
  - rewrite Nat.add_succ_r. apply (IH (S cap)).
    unfold pass_caps. destruct (on_read it).
    + eapply Forall_impl; [|exact H]. cbn beta. intros; lia.
    + constructor; [lia|]. eapply Forall_impl; [|exact H].
      cbn beta. intros; lia.
Qed.

(** X6.  Every pass of a run opens exactly one capture, on the address
    given to [log_laps], with a handle that was never handed out before:
    the captures opened by the run carry the consecutive handles from the
    first free one on, one per pass gone through, and the handles left
    open stay below the next free one. *)
Theorem each_pass_opens_a_fresh_capture
  (its : list iteration) (qr_log_file url : string) (w : world) :
  caps_wf w ->
  let w' := snd (log_laps its qr_log_file url w) in
  caps_wf w' /\
  exists n delta,
    n <= length its /\
    (fst (log_laps its qr_log_file url w) = Return Polling ->
     n = length its) /\
    trace w' = (trace w ++ delta)%list /\
    caps_next w' = caps_next w + n /\
    opened delta = map (pair url) (seq (caps_next w) n).
Proof.
  intros Hwf w'. subst w'. rewrite log_laps_spec.
  unfold run_world, caps_wf. world_simpl. split.
  - apply run_caps_below, Hwf.
  - exists (length (executed its)),
      (run_events url (caps_next w) (executed its)).
    split; [apply length_executed|].
    split; [intros H; injection H as H;
            rewrite (polling_executed its H); reflexivity|].
    split; [reflexivity|]. split; [reflexivity|].
    apply opened_run_events.
Qed.

(** ** Writes, notifications and pauses over a run *)

Lemma total_of_same_payloads (its : list iteration) (qr_codes : list string) :
  Forall (fun it => payloads it = qr_codes) its ->
  total_payloads its = length its * length qr_codes.
Proof.
  unfold total_payloads, list_sum.
  induction 1 as [|it rest Hit _ IH]; cbn [map fold_right length].
  - reflexivity.
  - rewrite IH, Hit. reflexivity.
Qed.

Lemma lines_of_same_payloads (its : list iteration) (qr_codes : list string) :
  Forall (fun it => payloads it = qr_codes) its ->
  render (flat_map (fun it => map (pair (timestamp it)) (payloads it)) its) =
  join (flat_map (fun it => map (log_line (timestamp it)) qr_codes) its).
Proof.
  unfold render.
  induction 1 as [|it rest Hit _ IH]; cbn [flat_map map join].
  - reflexivity.
  - rewrite map_app, !join_app, IH, map_map, Hit. reflexivity.
Qed.

(** X7.  Nothing is remembered from one pass to the next: when the same
    codes are decoded in every pass of a run of captured frames, every
    pass writes a line for each of them, with its own timestamp. *)
Theorem codes_in_view_are_logged_in_every_pass
  (its : list iteration) (qr_codes : list string)
  (qr_log_file url : string) (w : world) :
  Forall plain its ->
  Forall (fun it => payloads it = qr_codes) its ->
  let w' := snd (log_laps its qr_log_file url w) in
  count_writes (trace w') =
  count_writes (trace w) + length its * length qr_codes /\
  log_file w' =
  log_file w
    ++ join
         (flat_map
            (fun it =>
               map (fun p =>
                      strftime "%Y-%m-%d %H:%M:%S" (on_gmtime it)
                        ++ ", " ++ p ++ newline)
                 qr_codes)
            its).
Proof.
  intros Hplain Hsame w'. subst w'.
  pose proof (lines_of_same_payloads its qr_codes Hsame) as E1.
  pose proof (total_of_same_payloads its qr_codes Hsame) as E2.
  rewrite log_laps_spec. unfold run_world. world_simpl.
  rewrite (executed_plain its Hplain), count_writes_app,
    count_writes_run_events, (flat_map_entries_plain its Hplain),
    length_stamped_payloads, E1, E2.
  split; reflexivity.
Qed.

Lemma is_lap_print_lap (text : string) :
  is_lap_print (ev_print ("Lap logged: " ++ text)) = true.
Proof. cbn. destruct text; reflexivity. Qed.

Lemma announced_lap_events (current_time : string) (qr_codes : list string) :
  filter write_or_lap_print (lap_events current_time qr_codes) =
  flat_map lap_pair (map (pair current_time) qr_codes).
Proof.
  induction qr_codes as [|q rest IH]; cbn [lap_events flat_map map]; auto.
  unfold lap_events in IH. rewrite filter_app, IH. f_equal.
  cbn [filter]. unfold write_or_lap_print at 1 2.
  rewrite is_lap_print_lap. reflexivity.
Qed.

Lemma announced_pass_events (url : string) (cap : nat) (it : iteration) :
  filter write_or_lap_print (pass_events url cap it) =
  flat_map lap_pair (entries it).
Proof.
  unfold pass_events. rewrite !filter_app, announced_lap_events.
  assert (H1 : filter write_or_lap_print (capture_events url cap it) = []).
  { unfold capture_events. destruct (on_read it) as [[r fr]|e]; reflexivity. }
  assert (H2 : filter write_or_lap_print (sleep_events it) = []).
  { unfold sleep_events.
    destruct (raised_before_sleep it), (on_sleep it); reflexivity. }
  assert (H3 : filter write_or_lap_print (handler_events it) = []).
  { unfold handler_events. destruct (raised it) as [[|msg]|]; reflexivity. }
  rewrite H1, H2, H3, app_nil_r. reflexivity.
Qed.

Lemma announced_run_events (url : string) (its : list iteration) :
  forall cap : nat,
    filter write_or_lap_print (run_events url cap its) =
    flat_map lap_pair (flat_map entries its).
Proof.
  induction its as [|it rest IH]; intros cap; cbn [run_events flat_map].
  - reflexivity.
  - rewrite filter_app, announced_pass_events, IH, flat_map_app.
    reflexivity.
Qed.

(** X8.  In every run, with or without failures, each line appended to
    the file is announced on the console right after its write, with its
    payload and its timestamp, before the next write; and no lap is
    announced that was not written. *)
Theorem every_write_is_announced
  (its : list iteration) (qr_log_file url : string) (w : world) :
  let w' := snd (log_laps its qr_log_file url w) in
  exists es,
    log_file w' = log_file w ++ render es /\
    filter (fun e => is_write e || is_lap_print e) (trace w') =
    (filter (fun e => is_write e || is_lap_print e) (trace w)
       ++ flat_map
            (fun e =>
               [ev_write (fst e ++ ", " ++ snd e ++ newline)%string;
                ev_print
                  ("Lap logged: " ++ snd e ++ " at " ++ fst e)%string])
            es)%list.
Proof.
  intros w'. subst w'. exists (flat_map entries (executed its)).
  rewrite log_laps_spec. unfold run_world. world_simpl.
  split; [reflexivity|].
  change (fun e => is_write e || is_lap_print e) with write_or_lap_print.
  rewrite filter_app, announced_run_events. reflexivity.
Qed.




(** ** The stop message *)

Lemma no_stop_print_in_laps (current_time : string) (qr_codes : list string) :
  filter is_stop_print (lap_events current_time qr_codes) = [].
Proof. induction qr_codes as [|q rest IH]; cbn; auto. Qed.

Lemma no_stop_print_before_handler (url : string) (cap : nat) (it : iteration) :
  filter is_stop_print
    (capture_events url cap it ++ lap_events (timestamp it) (logged it)
       ++ sleep_events it) = [].
Proof.
  rewrite !filter_app, no_stop_print_in_laps.
  assert (H1 : filter is_stop_print (capture_events url cap it) = []).
  { unfold capture_events. destruct (on_read it) as [[r fr]|e]; reflexivity. }
  assert (H2 : filter is_stop_print (sleep_events it) = []).
  { unfold sleep_events.
    destruct (raised_before_sleep it), (on_sleep it); reflexivity. }
  rewrite H1, H2. reflexivity.
Qed.

Lemma stop_print_of_pass (url : string) (cap : nat) (it : iteration) :
  match next_step it with
  | Continue => filter is_stop_print (pass_events url cap it) = []
  | Break =>
      exists d,
        pass_events url cap it = (d ++ [ev_print "Logging stopped."])%list /\
        filter is_stop_print d = []
  end.
Proof.
  pose proof (no_stop_print_before_handler url cap it) as H.
  unfold next_step, pass_events, handler_events.
  destruct (raised it) as [[|msg]|].
  - eexists. rewrite !app_assoc. split; [reflexivity|].
    rewrite <- !app_assoc. exact H.
  - rewrite !app_assoc, filter_app, <- !app_assoc, H. reflexivity.
  - rewrite !app_assoc, filter_app, <- !app_assoc, H. reflexivity.
Qed.

Lemma stop_print_of_run (url : string) (its : list iteration) :
  forall cap : nat,
    if forallb continues its
    then filter is_stop_print (run_events url cap (executed its)) = []
    else
      exists d,
        run_events url cap (executed its) =
        (d ++ [ev_print "Logging stopped."])%list /\
        filter is_stop_print d = [].
Proof.
  induction its as [|it rest IH]; intros cap;
    cbn [forallb executed run_events].
  - reflexivity.
  - pose proof (stop_print_of_pass url cap it) as Hp.
    unfold continues at 1. destruct (next_step it); cbn [andb run_events].
    + specialize (IH (S cap)). destruct (forallb continues rest).
      * rewrite filter_app, Hp, IH. reflexivity.
      * destruct IH as (d & E & Hd). rewrite E.
        exists (pass_events url cap it ++ d)%list.
        rewrite app_assoc, filter_app, Hp, Hd. auto.
    + destruct Hp as (d & E & Hd). rewrite app_nil_r. eauto.
Qed.

(** X10.  The stop message is printed exactly when the loop is left: a
    run that stops prints it once, as its last action, and a run that is
    still polling has not printed it, whatever was decoded and whatever
    errors were reported. *)
Theorem stop_message_ends_a_stopped_run
  (its : list iteration) (qr_log_file url : string) (w : world) :
  exists delta,
    trace (snd (log_laps its qr_log_file url w)) = (trace w ++ delta)%list /\
    match fst (log_laps its qr_log_file url w) with
    | Return Stopped =>
        exists d,
          delta = (d ++ [ev_print "Logging stopped."])%list /\
          filter is_stop_print d = []
    | _ => filter is_stop_print delta = []
    end.
Proof.
  rewrite log_laps_spec. unfold run_world, run_status. world_simpl.
  exists (run_events url (caps_next w) (executed its)).
  split; [reflexivity|].
  pose proof (stop_print_of_run url its (caps_next w)) as H.
  destruct (forallb continues its); exact H.
Qed.

End Functions.

(** ** The further properties on concrete runs *)

(** Three codes, the second of which is a lone byte above 127. *)
Lemma scan_qr_code_raises_at_first_undecodable_witness :
  @decode ascii_only ["A"; high_byte; "B"] =
  Return ([mkDecoded "A"] ++ mkDecoded high_byte :: [mkDecoded "B"])%list /\
  Forall2 (@decodes_to ascii_only) [mkDecoded "A"] ["A"] /\
  @decode_utf8 ascii_only (data (mkDecoded high_byte)) =
  Raise (Exception "'utf-8' codec can't decode byte") /\
  @scan_qr_code ascii_only ["A"; high_byte; "B"] =
  Raise (Exception "'utf-8' codec can't decode byte").
Proof.
  assert (Hg : Forall2 (@decodes_to ascii_only) [mkDecoded "A"] ["A"]).
  { constructor; [reflexivity|constructor]. }
  split; [reflexivity|]. split; [exact Hg|]. split; [reflexivity|].
  exact (@scan_qr_code_raises_at_first_undecodable ascii_only
           ["A"; high_byte; "B"] [mkDecoded "A"] ["A"] (mkDecoded high_byte)
           [mkDecoded "B"] _ eq_refl Hg eq_refl).
Defined.

(** The same frame in a pass: nothing is logged, not even [A]. *)
Lemma undecodable_code_drops_the_frame_witness :
  on_read (views ["A"; high_byte; "B"] new_year_2024) =
  Return (true, ["A"; high_byte; "B"]) /\
  @scan_qr_code ascii_only ["A"; high_byte; "B"] =
  Raise (Exception "'utf-8' codec can't decode byte") /\
  log_file
    (snd (loop_body (views ["A"; high_byte; "B"] new_year_2024) demo_url
            world0)) = log_file world0.
Proof.
  split; [reflexivity|]. split; [reflexivity|].
  destruct (@undecodable_code_drops_the_frame ascii_only
              (views ["A"; high_byte; "B"] new_year_2024)
              ["A"; high_byte; "B"] _ demo_url world0 eq_refl eq_refl)
    as (_ & H & _).
  exact H.
Defined.

(** Three codes, the second write fails: only [A] is in the file. *)
Lemma failed_write_keeps_earlier_lines_witness :
  on_read (write_fails ["A"; "B"; "C"] new_year_2024 1
             (Exception "No space left on device")) =
  Return (true, ["A"; "B"; "C"]) /\
  @scan_qr_code demo ["A"; "B"; "C"] = Return (["A"] ++ "B" :: ["C"])%list /\
  on_write (write_fails ["A"; "B"; "C"] new_year_2024 1
              (Exception "No space left on device")) =
  (repeat None (length ["A"])
     ++ Some (Exception "No space left on device") :: [])%list /\
  log_file
    (snd (loop_body
            (write_fails ["A"; "B"; "C"] new_year_2024 1
               (Exception "No space left on device"))
            demo_url world0)) =
  "2024-01-01 00:00:00, A" ++ newline.
Proof.
  split; [reflexivity|]. split; [reflexivity|]. split; [reflexivity|].
  destruct (@failed_write_keeps_earlier_lines demo
              (write_fails ["A"; "B"; "C"] new_year_2024 1
                 (Exception "No space left on device"))
              ["A"; "B"; "C"] ["A"] "B" ["C"] "No space left on device" []
              demo_url world0 eq_refl eq_refl eq_refl)
    as (_ & H & _).
  rewrite H. reflexivity.
Defined.


(** The four passes use the handles 0, 1, 2 and 3. *)
Lemma each_pass_opens_a_fresh_capture_witness :
  caps_wf world0 /\
  caps_next (snd (log_laps four_passes demo_log demo_url world0)) = 4.
Proof.
  assert (Hwf : caps_wf world0) by constructor.
  split; [exact Hwf|].
  destruct (@each_pass_opens_a_fresh_capture demo four_passes demo_log
              demo_url world0 Hwf)
    as (_ & n & delta & _ & Hn & _ & Hnext & _).
  rewrite Hnext, (Hn eq_refl). reflexivity.
Defined.

(** The code [A] in view during two passes is logged twice. *)
Lemma codes_in_view_are_logged_in_every_pass_witness :
  Forall plain [sees ["A"] new_year_2024; sees ["A"] year_end_2024] /\
  Forall (fun it => payloads it = ["A"])
    [sees ["A"] new_year_2024; sees ["A"] year_end_2024] /\
  count_writes
    (trace (snd (log_laps [sees ["A"] new_year_2024; sees ["A"] year_end_2024]
                   demo_log demo_url world0))) = 2.
Proof.
  assert (Hp : Forall plain
                 [sees ["A"] new_year_2024; sees ["A"] year_end_2024]).
  { constructor; [apply plain_sees|].
    constructor; [apply plain_sees|constructor]. }
  assert (Hs : Forall (fun it => payloads it = ["A"])
                 [sees ["A"] new_year_2024; sees ["A"] year_end_2024]).
  { constructor; [reflexivity|]. constructor; [reflexivity|constructor]. }
  split; [exact Hp|]. split; [exact Hs|].
  destruct (@codes_in_view_are_logged_in_every_pass demo
              [sees ["A"] new_year_2024; sees ["A"] year_end_2024] ["A"]
              demo_log demo_url world0 Hp Hs) as [H _].
  rewrite H. reflexivity.
Defined.

